(** * Frame selection of [just_calibration.py]

    The script loads parallel lists of 3D points, 2D points, frame names and
    camera poses, optionally thins the frame set (by camera displacement or
    by a stride), and hands the lists to the OpenCV calibration routine.
    This development embeds the frame selection: [split_by_distance] and the
    filter dispatch of the main script.

    Numbers are IEEE binary64 floats ([PrimFloat]), as in numpy; Python
    integers are [Z] (offsets, strides) or [nat] (loop indices). *)

From Stdlib Require Import String.
From Stdlib Require Import List Sorted ZArith Floats Bool Arith Lia.
Import ListNotations.

(** ** Python outcomes *)

Inductive exn : Type :=
| NameError
| ValueError.

Inductive result (A : Type) : Type :=
| Ok (a : A)
| Raise (e : exn).

Arguments Ok {A} a.
Arguments Raise {A} e.

Definition bind {A B : Type} (c : result A) (k : A -> result B) : result B :=
  match c with
  | Ok a => k a
  | Raise e => Raise e
  end.

Notation "x <- c ;; k" := (bind c (fun x => k))
  (at level 61, c at next level, right associativity).

(** ** Python list operations used by the script *)

Module Py.

(** [i in arg_split] on a list of integers. *)
Definition contains (i : nat) (l : list nat) : bool :=
  existsb (Nat.eqb i) l.

(** [[l[i] for i in range(len(l)) if i in keep]], the loop index starting
    at [i]. *)
Fixpoint comprehension {A : Type} (i : nat) (l : list A) (keep : list nat)
  : list A :=
  match l with
  | [] => []
  | x :: l' =>
      if contains i keep
      then x :: comprehension (S i) l' keep
      else comprehension (S i) l' keep
  end.

(** [slice(start, None, step).indices(len)]: the adjusted start and stop. *)
Definition slice_indices (start step len : Z) : Z * Z :=
  if (step <? 0)%Z then
    let s := if (start <? 0)%Z
             then (if (start + len <? 0)%Z then (-1)%Z else (start + len)%Z)
             else (if (len <=? start)%Z then (len - 1)%Z else start) in
    (s, (-1)%Z)
  else
    let s := if (start <? 0)%Z
             then (if (start + len <? 0)%Z then 0%Z else (start + len)%Z)
             else (if (len <=? start)%Z then len else start) in
    (s, len).

(** The number of items of the slice. *)
Definition slice_length (start stop step : Z) : Z :=
  if (step <? 0)%Z then
    (if (stop <? start)%Z then ((start - stop - 1) / (- step) + 1)%Z else 0%Z)
  else
    (if (start <? stop)%Z then ((stop - start - 1) / step + 1)%Z else 0%Z).

(** The indices [start, start + step, ...] the slice visits. *)
Definition slice_positions (start step len : Z) : list Z :=
  let '(s, e) := slice_indices start step len in
  map (fun k => (s + Z.of_nat k * step)%Z)
      (seq 0 (Z.to_nat (slice_length s e step))).

(** The item the slice copies from position [p]. *)
Definition item {A : Type} (l : list A) (p : Z) : list A :=
  if (p <? 0)%Z then []
  else match nth_error l (Z.to_nat p) with
       | Some x => [x]
       | None => []
       end.

(** [l[start::step]]; a zero step raises [ValueError]. *)
Definition slice_from {A : Type} (start step : Z) (l : list A)
  : result (list A) :=
  if (step =? 0)%Z then Raise ValueError
  else Ok (flat_map (item l)
             (slice_positions start step (Z.of_nat (length l)))).

(** The indices below [n] that are members of [keep], in increasing order. *)
Definition kept (n : nat) (keep : list nat) : list nat :=
  filter (fun k => contains k keep) (seq 0 n).

End Py.

(** ** numpy on 3-vectors of binary64 floats *)

Definition vec3 : Type := float * float * float.
Definition mat3 : Type := vec3 * vec3 * vec3.

(** A pose [vecs[i]]: the pair of rotation vector and translation vector. *)
Definition pose : Type := vec3 * vec3.

Module Np.
Local Open Scope float_scope.

(** [rvec.reshape(3)] flattens a 3x1 column; the three components stay. *)
Definition reshape3 (v : vec3) : vec3 := v.

Definition row_dot (r t : vec3) : float :=
  let '(a, b, c) := r in
  let '(x, y, z) := t in
  a * x + b * y + c * z.

(** [np.dot(m, t)] of a 3x3 matrix (by rows) and a 3-vector. *)
Definition dot (m : mat3) (t : vec3) : vec3 :=
  let '(r0, r1, r2) := m in
  (row_dot r0 t, row_dot r1 t, row_dot r2 t).

(** [a - b], element by element. *)
Definition sub (a b : vec3) : vec3 :=
  let '(a0, a1, a2) := a in
  let '(b0, b1, b2) := b in
  (a0 - b0, a1 - b1, a2 - b2).

(** [np.linalg.norm(v)]: the square root of [v.dot(v)]. *)
Definition linalg_norm (v : vec3) : float :=
  let '(x, y, z) := v in
  PrimFloat.sqrt (x * x + y * y + z * z).

(** [a >= b] on floats; false as soon as one side is NaN. *)
Definition ge (a b : float) : bool := PrimFloat.leb b a.

End Np.

(** ** Sample data

    Frames with a zero rotation vector, for which scipy's [from_rotvec]
    yields the identity rotation, translated along the first axis. *)

Definition zero3 : vec3 := (0, 0, 0)%float.

Definition eye3 : mat3 :=
  ((1, 0, 0), (0, 1, 0), (0, 0, 1))%float.

(** A rotation is kept as its matrix; the samples only ever convert the zero
    rotation vector. *)
Definition from_rotvec_zero (rvec : vec3) : mat3 := eye3.

Definition as_matrix_id (m : mat3) : mat3 := m.

Definition along_x (x : float) : pose := (zero3, (x, 0, 0)%float).

(** Positions 0.0, 0.05 and 1.0 (0.05 is the double 0x1.999999999999ap-5). *)
Definition three_frames : list pose :=
  [along_x 0; along_x 0x1.999999999999ap-5; along_x 1]%float.

(** The middle frame has a NaN translation. *)
Definition nan_frames : list pose :=
  [along_x 0; along_x PrimFloat.nan; along_x 1]%float.

Definition five_names : list string :=
  ["f0"; "f1"; "f2"; "f3"; "f4"]%string.

(** ** The distance filter *)

Section FrameSelection.

(** scipy's [Rotation]: [R.from_rotvec] and [as_matrix] are library code. *)
Variable Rotation : Type.
Variable from_rotvec : vec3 -> Rotation.
Variable as_matrix : Rotation -> mat3.

(** The entries of [objpts] and [imgpts] are arrays the filter never
    looks into. *)
Variables ObjPts ImgPts : Type.

(** The loop's variables: [tmat_old] is unbound before the first pass. *)
Record loop_state : Type := mkLoop {
  tmat_old : option vec3;
  arg_split : list nat
}.

(** One pass of [for i in range(len(vecs))], with [v = vecs[i]]. *)
Definition loop_body (min_dist : float) (i : nat) (v : pose)
  (st : loop_state) : result loop_state :=
  let rvec := fst v in
  let tvec := snd v in
  let rmat := from_rotvec (Np.reshape3 rvec) in
  let tmat := Np.dot (as_matrix rmat) tvec in
  if Nat.eqb i 0 then
    Ok (mkLoop (Some tmat) (arg_split st ++ [i]))
  else
    match tmat_old st with
    | None => Raise NameError
    | Some old =>
        let dtc := Np.linalg_norm (Np.sub old tmat) in
        if Np.ge dtc min_dist
        then Ok (mkLoop (Some tmat) (arg_split st ++ [i]))
        else Ok st
    end.

Fixpoint for_range (min_dist : float) (i : nat) (vecs : list pose)
  (st : loop_state) : result loop_state :=
  match vecs with
  | [] => Ok st
  | v :: vecs' =>
      st' <- loop_body min_dist i v st ;;
      for_range min_dist (S i) vecs' st'
  end.

Definition split_by_distance (objpts : list ObjPts) (imgpts : list ImgPts)
  (names : list string) (vecs : list pose) (min_dist : float)
  : result (list ObjPts * list ImgPts * list string) :=
  st <- for_range min_dist 0 vecs (mkLoop None []) ;;
  let nobj := Py.comprehension 0 objpts (arg_split st) in
  let nimg := Py.comprehension 0 imgpts (arg_split st) in
  let nnames := Py.comprehension 0 names (arg_split st) in
  Ok (nobj, nimg, nnames).

(** *** The selection as the specification words it

    A frame's position is the rotation matrix applied to the translation
    vector; displacement is the Euclidean distance of two positions; the
    walk keeps frame 0 and then every frame at least [min_dist] away from
    the last kept one. *)

Definition spec_position (v : pose) : vec3 :=
  let '(r0, r1, r2) := as_matrix (from_rotvec (fst v)) in
  let '(t0, t1, t2) := snd v in
  let row r := (let '(a, b, c) := r in a * t0 + b * t1 + c * t2)%float in
  (row r0, row r1, row r2).

Definition spec_distance (p q : vec3) : float :=
  let '(p0, p1, p2) := p in
  let '(q0, q1, q2) := q in
  (PrimFloat.sqrt ((p0 - q0) * (p0 - q0) + (p1 - q1) * (p1 - q1)
                   + (p2 - q2) * (p2 - q2)))%float.

Fixpoint greedy_from (min_dist : float) (last : vec3) (i : nat)
  (ps : list vec3) : list nat :=
  match ps with
  | [] => []
  | p :: ps' =>
      if PrimFloat.leb min_dist (spec_distance last p)
      then i :: greedy_from min_dist p (S i) ps'
      else greedy_from min_dist last (S i) ps'
  end.

Definition greedy_retained (min_dist : float) (ps : list vec3) : list nat :=
  match ps with
  | [] => []
  | p0 :: ps' => 0 :: greedy_from min_dist p0 1 ps'
  end.

(** The retained indices of a pose list. *)
Definition retained (vecs : list pose) (min_dist : float) : list nat :=
  greedy_retained min_dist (map spec_position vecs).

(** No step from the reference to the next position has a NaN length, the
    reference moving to every position in turn. *)
Fixpoint steps_not_nan (last : vec3) (ps : list vec3) : bool :=
  match ps with
  | [] => true
  | p :: ps' =>
      negb (PrimFloat.is_nan (spec_distance last p)) && steps_not_nan p ps'
  end.

Definition frames_not_nan (vecs : list pose) : bool :=
  match map spec_position vecs with
  | [] => true
  | p0 :: ps => steps_not_nan p0 ps
  end.

(** The reading of "a discarded frame is closer than [min_dist]": every
    frame strictly between two consecutive retained frames [i] and [j] lies
    at a distance below [min_dist] from frame [i]. *)
Definition discarded_are_closer (vecs : list pose) (min_dist : float) : Prop :=
  forall l1 i j l2 d pi pd,
    retained vecs min_dist = l1 ++ i :: j :: l2 ->
    i < d < j ->
    nth_error (map spec_position vecs) i = Some pi ->
    nth_error (map spec_position vecs) d = Some pd ->
    PrimFloat.ltb (spec_distance pi pd) min_dist = true.


(** ** The main script: unpacking and filter dispatch *)

(** The [argparse] namespace. *)
Record Namespace : Type := mkArgs {
  file : string;
  extended : bool;
  save : bool;
  filterdist : bool;
  filtertime : bool;
  mindist : float;
  reduction : Z;
  residue : Z
}.

(** The lists of the pickled record that the filters touch. *)
Record PFile : Type := mkPFile {
  points_3D : list ObjPts;
  points_2D : list ImgPts;
  name_points : list string;
  rt_vectors : list pose
}.

(** The script's variables, next to the record they were unpacked from. *)
Record vars : Type := mkVars {
  pFile : PFile;
  objpoints : list ObjPts;
  imgpoints : list ImgPts;
  ret_names : list string;
  vecs : list pose
}.

(** "Unpack lists". *)
Definition unpack (p : PFile) : vars :=
  mkVars p (points_3D p) (points_2D p) (name_points p) (rt_vectors p).

(** "Filter lists if required": the [if]/[elif] of the main script. *)
Definition filter_lists (args : Namespace) (s : vars) : result vars :=
  if filterdist args then
    r <- split_by_distance (objpoints s) (imgpoints s) (ret_names s)
                           (vecs s) (mindist args) ;;
    let '(o, i, n) := r in
    Ok (mkVars (pFile s) o i n (vecs s))
  else if filtertime args then
    o <- Py.slice_from (residue args) (reduction args) (objpoints s) ;;
    i <- Py.slice_from (residue args) (reduction args) (imgpoints s) ;;
    n <- Py.slice_from (residue args) (reduction args) (ret_names s) ;;
    Ok (mkVars (pFile s) o i n (vecs s))
  else Ok s.

(** *** The filter policies as the specification words them: a tagged
    variant, one policy per run. *)

Inductive policy : Type :=
| NoFilter
| ByDistance (min_dist : float)
| ByStride (N r : Z).

Definition policy_of (args : Namespace) : policy :=
  if filterdist args then ByDistance (mindist args)
  else if filtertime args then ByStride (reduction args) (residue args)
  else NoFilter.

Definition apply_policy (p : policy) (s : vars) : result vars :=
  match p with
  | NoFilter => Ok s
  | ByDistance min_dist =>
      r <- split_by_distance (objpoints s) (imgpoints s) (ret_names s)
                             (vecs s) min_dist ;;
      Ok (mkVars (pFile s) (fst (fst r)) (snd (fst r)) (snd r) (vecs s))
  | ByStride N r =>
      o <- Py.slice_from r N (objpoints s) ;;
      i <- Py.slice_from r N (imgpoints s) ;;
      n <- Py.slice_from r N (ret_names s) ;;
      Ok (mkVars (pFile s) o i n (vecs s))
  end.

(** *** The stride selection as the specification words it: the entries at
    the indices [r, r + N, r + 2N, ...] below the length, in order. *)

Definition on_stride (r N : Z) (i : nat) : bool :=
  ((r <=? Z.of_nat i) && ((Z.of_nat i - r) mod N =? 0))%Z.

Fixpoint stride_from {A : Type} (r N : Z) (i : nat) (l : list A) : list A :=
  match l with
  | [] => []
  | x :: l' =>
      if on_stride r N i
      then x :: stride_from r N (S i) l'
      else stride_from r N (S i) l'
  end.

Definition stride_spec {A : Type} (r N : Z) (l : list A) : list A :=
  stride_from r N 0 l.

(** * Properties *)

(** ** The loop computes the greedy walk *)

Lemma spec_position_dot (v : pose) :
  Np.dot (as_matrix (from_rotvec (Np.reshape3 (fst v)))) (snd v)
  = spec_position v.
Proof.
  unfold spec_position, Np.dot, Np.row_dot, Np.reshape3.
  destruct (as_matrix (from_rotvec (fst v))) as [[[[a0 a1] a2] [[b0 b1] b2]]
                                                  [[c0 c1] c2]].
  destruct (snd v) as [[t0 t1] t2].
  reflexivity.
Qed.

Lemma spec_distance_norm (p q : vec3) :
  Np.linalg_norm (Np.sub p q) = spec_distance p q.
Proof.
  destruct p as [[p0 p1] p2], q as [[q0 q1] q2].
  reflexivity.
Qed.

Lemma loop_body_first (min_dist : float) (v : pose) (st : loop_state) :
  loop_body min_dist 0 v st
  = Ok (mkLoop (Some (spec_position v)) (arg_split st ++ [0])).
Proof.
  unfold loop_body. simpl. now rewrite spec_position_dot.
Qed.

Lemma loop_body_next (min_dist : float) (i : nat) (v : pose)
  (old : vec3) (acc : list nat) :
  i <> 0 ->
  loop_body min_dist i v (mkLoop (Some old) acc)
  = Ok (if PrimFloat.leb min_dist (spec_distance old (spec_position v))
        then mkLoop (Some (spec_position v)) (acc ++ [i])
        else mkLoop (Some old) acc).
Proof.
  intros Hi. unfold loop_body.
  destruct (Nat.eqb_spec i 0) as [E | _]; [contradiction |].
  simpl. rewrite spec_position_dot, spec_distance_norm.
  unfold Np.ge.
  now destruct (PrimFloat.leb min_dist _).
Qed.

Lemma for_range_greedy (min_dist : float) (vs : list pose) :
  forall (i : nat) (last : vec3) (acc : list nat),
    i <> 0 ->
    exists last',
      for_range min_dist i vs (mkLoop (Some last) acc)
      = Ok (mkLoop (Some last')
              (acc ++ greedy_from min_dist last i (map spec_position vs))).
Proof.
  induction vs as [| v vs IH]; intros i last acc Hi; simpl.
  - exists last. now rewrite app_nil_r.
  - rewrite loop_body_next by assumption. simpl.
    destruct (PrimFloat.leb min_dist (spec_distance last (spec_position v))).
    + destruct (IH (S i) (spec_position v) (acc ++ [i])) as [l' El];
        [lia |].
      exists l'. rewrite El. now rewrite <- app_assoc.
    + apply IH. lia.
Qed.

Lemma for_range_retained (min_dist : float) (vs : list pose) :
  exists st,
    for_range min_dist 0 vs (mkLoop None []) = Ok st
    /\ arg_split st = retained vs min_dist.
Proof.
  destruct vs as [| v vs]; cbn [for_range].
  - now exists (mkLoop None []).
  - rewrite loop_body_first. cbn [bind app arg_split].
    destruct (for_range_greedy min_dist vs 1 (spec_position v) [0]) as [l' El];
      [lia |].
    eexists. split; [exact El | reflexivity].
Qed.

Lemma split_by_distance_retained (objpts : list ObjPts) (imgpts : list ImgPts)
  (names : list string) (vs : list pose) (min_dist : float) :
  split_by_distance objpts imgpts names vs min_dist
  = Ok (Py.comprehension 0 objpts (retained vs min_dist),
        Py.comprehension 0 imgpts (retained vs min_dist),
        Py.comprehension 0 names (retained vs min_dist)).
Proof.
  unfold split_by_distance.
  destruct (for_range_retained min_dist vs) as [st [E R]].
  rewrite E. simpl. now rewrite R.
Qed.

(** ** Facts about binary64 comparisons *)

Lemma SFcompare_not_nan (x y : spec_float) :
  x <> S754_nan -> y <> S754_nan -> SFcompare x y <> None.
Proof.
  destruct x as [sx | sx | | sx mx ex], y as [sy | sy | | sy my ey];
    intros Hx Hy; try congruence; simpl; try discriminate;
    repeat match goal with
           | |- context [match ?c with _ => _ end] => destruct c
           end; discriminate.
Qed.

Lemma is_nan_SF (x : float) :
  PrimFloat.is_nan x = false -> Prim2SF x <> S754_nan.
Proof.
  unfold PrimFloat.is_nan. rewrite FloatAxioms.eqb_spec. unfold SFeqb.
  intros H E. rewrite E in H. discriminate.
Qed.

Lemma SFcompare_flip (x y : spec_float) :
  SFcompare x y = Some Gt -> SFcompare y x = Some Lt.
Proof.
  destruct x as [sx | sx | | sx mx ex], y as [sy | sy | | sy my ey];
    simpl; try discriminate;
    try (destruct sx; try destruct sy; simpl; congruence).
  change (Pos.compare_cont Eq mx my) with (Pos.compare mx my).
  change (Pos.compare_cont Eq my mx) with (Pos.compare my mx).
  rewrite (Z.compare_antisym ex ey), (Pos.compare_antisym mx my).
  destruct sx, sy; try congruence;
    destruct (Z.compare ex ey); simpl; try congruence;
    destruct (Pos.compare mx my); simpl; congruence.
Qed.

Lemma leb_false_ltb (x y : float) :
  PrimFloat.is_nan x = false -> PrimFloat.is_nan y = false ->
  PrimFloat.leb x y = false -> PrimFloat.ltb y x = true.
Proof.
  intros Hx Hy. rewrite FloatAxioms.leb_spec, FloatAxioms.ltb_spec. unfold SFleb, SFltb.
  pose proof (SFcompare_not_nan _ _ (is_nan_SF _ Hx) (is_nan_SF _ Hy)) as Hc.
  destruct (SFcompare (Prim2SF x) (Prim2SF y)) as [[| |] |] eqn:E; try discriminate; try congruence.
  now rewrite (SFcompare_flip _ _ E).
Qed.

Lemma sqrt_ge_zero (x : float) :
  PrimFloat.is_nan (PrimFloat.sqrt x) = false ->
  PrimFloat.leb 0 (PrimFloat.sqrt x) = true.
Proof.
  intros H. apply is_nan_SF in H. revert H.
  rewrite FloatAxioms.leb_spec, FloatAxioms.sqrt_spec.
  change (Prim2SF 0) with (S754_zero false).
  unfold SF64sqrt, SFsqrt.
  destruct (Prim2SF x) as [s | s | | s m e]; try destruct s;
    try congruence; try reflexivity.
  destruct (SFsqrt_core_binary prec emax (Z.pos m) e) as [[mz ez] lz].
  unfold binary_round_aux.
  destruct (shr_fexp prec emax mz ez lz) as [mrs' e'].
  destruct (shr_fexp prec emax _ e' loc_Exact) as [mrs'' e''].
  destruct (shr_m mrs''); try congruence; try reflexivity.
  destruct (Z.leb e'' (emax - prec)); reflexivity.
Qed.

(** ** Shape of the greedy walk *)

Lemma greedy_from_bounds (min_dist : float) (ps : list vec3) :
  forall (last : vec3) (i x : nat),
    In x (greedy_from min_dist last i ps) -> i <= x < i + length ps.
Proof.
  induction ps as [| p ps IH]; intros last i x; simpl; [tauto |].
  destruct (PrimFloat.leb min_dist (spec_distance last p)); simpl.
  - intros [<- | H]; [lia |]. apply IH in H. lia.
  - intros H. apply IH in H. lia.
Qed.

Lemma greedy_from_sorted (min_dist : float) (ps : list vec3) :
  forall (last : vec3) (i : nat),
    StronglySorted lt (greedy_from min_dist last i ps).
Proof.
  induction ps as [| p ps IH]; intros last i; simpl; [constructor |].
  destruct (PrimFloat.leb min_dist (spec_distance last p)); [| apply IH].
  constructor; [apply IH |].
  apply Forall_forall. intros x Hx. apply greedy_from_bounds in Hx. lia.
Qed.

Lemma sorted_consecutive (l1 l2 : list nat) (i j : nat) :
  StronglySorted lt (l1 ++ i :: j :: l2) ->
  i < j /\ forall d, In d (l1 ++ i :: j :: l2) -> d <= i \/ j <= d.
Proof.
  induction l1 as [| a l1 IH]; simpl; intros H.
  - inversion H as [| ? ? Hs Hf]; subst.
    inversion Hs as [| ? ? _ Hf']; subst.
    rewrite Forall_forall in Hf, Hf'.
    split; [apply Hf; now left |].
    intros d [<- | [<- | Hd]]; [lia | lia |].
    right. apply Nat.lt_le_incl. now apply Hf'.
  - inversion H as [| ? ? Hs Hf]; subst.
    destruct (IH Hs) as [Hij Hd]. split; [assumption |].
    intros d [<- | Hin]; [| now apply Hd].
    left. rewrite Forall_forall in Hf.
    apply Nat.lt_le_incl, Hf, in_elt.
Qed.

(** The reference frame [r] sits in the prefix [pre] already walked; every
    later frame of the prefix failed the check against it. *)
Lemma greedy_from_pairs (min_dist : float) (ps : list vec3) :
  forall (pre : list vec3) (last : vec3) (r : nat),
    nth_error pre r = Some last ->
    (forall d pd, r < d -> nth_error pre d = Some pd ->
                  PrimFloat.leb min_dist (spec_distance last pd) = false) ->
    forall l1 i j l2,
      r :: greedy_from min_dist last (length pre) ps = l1 ++ i :: j :: l2 ->
      exists pi pj,
        nth_error (pre ++ ps) i = Some pi
        /\ nth_error (pre ++ ps) j = Some pj
        /\ PrimFloat.leb min_dist (spec_distance pi pj) = true
        /\ forall d pd, i < d < j -> nth_error (pre ++ ps) d = Some pd ->
                        PrimFloat.leb min_dist (spec_distance pi pd) = false.
Proof.
  induction ps as [| p ps IH]; intros pre last r Hr Hinv l1 i j l2 E.
  - simpl in E. destruct l1 as [| a [| b l1]]; discriminate.
  - assert (Hlt : r < length pre) by (apply nth_error_Some; congruence).
    assert (Hlen : S (length pre) = length (pre ++ [p]))
      by (rewrite length_app; simpl; lia).
    assert (Happ : pre ++ p :: ps = (pre ++ [p]) ++ ps)
      by (now rewrite <- app_assoc).
    simpl in E.
    destruct (PrimFloat.leb min_dist (spec_distance last p)) eqn:Ep.
    + destruct l1 as [| a l1]; simpl in E.
      * injection E as <- <- _.
        exists last, p. repeat split.
        -- now rewrite nth_error_app1.
        -- now rewrite nth_error_app2, Nat.sub_diag by lia.
        -- assumption.
        -- intros d pd Hd Hn. rewrite nth_error_app1 in Hn by lia.
           apply (Hinv d pd); [lia | assumption].
      * injection E as _ E. rewrite Hlen in E. rewrite Happ.
        apply (IH (pre ++ [p]) p (length pre)) with (l1 := l1) (l2 := l2).
        -- now rewrite nth_error_app2, Nat.sub_diag by lia.
        -- intros d pd Hd Hn.
           assert (d < length (pre ++ [p])) by (apply nth_error_Some; congruence).
           lia.
        -- assumption.
    + rewrite Hlen in E. rewrite Happ.
      apply (IH (pre ++ [p]) last r) with (l1 := l1) (l2 := l2).
      * now rewrite nth_error_app1.
      * intros d pd Hd Hn.
        destruct (Nat.lt_ge_cases d (length pre)) as [Hd' | Hd'].
        -- rewrite nth_error_app1 in Hn by assumption. now apply (Hinv d pd).
        -- assert (d < length (pre ++ [p])) by (apply nth_error_Some; congruence).
           assert (d = length pre) by lia. subst d.
           rewrite nth_error_app2, Nat.sub_diag in Hn by lia.
           simpl in Hn. now injection Hn as <-.
      * assumption.
Qed.

(** After the last retained frame every frame failed the check against it. *)
Lemma greedy_from_tail (min_dist : float) (ps : list vec3) :
  forall (pre : list vec3) (last : vec3) (r : nat),
    nth_error pre r = Some last ->
    (forall d pd, r < d -> nth_error pre d = Some pd ->
                  PrimFloat.leb min_dist (spec_distance last pd) = false) ->
    forall l1 i,
      r :: greedy_from min_dist last (length pre) ps = l1 ++ [i] ->
      exists pi,
        nth_error (pre ++ ps) i = Some pi
        /\ forall d pd, i < d -> nth_error (pre ++ ps) d = Some pd ->
                        PrimFloat.leb min_dist (spec_distance pi pd) = false.
Proof.
  induction ps as [| p ps IH]; intros pre last r Hr Hinv l1 i E.
  - simpl in E. rewrite app_nil_r.
    destruct l1 as [| a [| b l1]]; try discriminate.
    injection E as <-. exists last. split; [assumption |].
    intros d pd Hd Hn. now apply (Hinv d pd).
  - assert (Hlt : r < length pre) by (apply nth_error_Some; congruence).
    assert (Hlen : S (length pre) = length (pre ++ [p]))
      by (rewrite length_app; simpl; lia).
    assert (Happ : pre ++ p :: ps = (pre ++ [p]) ++ ps)
      by (now rewrite <- app_assoc).
    simpl in E.
    destruct (PrimFloat.leb min_dist (spec_distance last p)) eqn:Ep.
    + destruct l1 as [| a l1]; simpl in E; [discriminate |].
      injection E as _ E. rewrite Hlen in E. rewrite Happ.
      apply (IH (pre ++ [p]) p (length pre)) with (l1 := l1).
      * now rewrite nth_error_app2, Nat.sub_diag by lia.
      * intros d pd Hd Hn.
        assert (d < length (pre ++ [p])) by (apply nth_error_Some; congruence).
        lia.
      * assumption.
    + rewrite Hlen in E. rewrite Happ.
      apply (IH (pre ++ [p]) last r) with (l1 := l1).
      * now rewrite nth_error_app1.
      * intros d pd Hd Hn.
        destruct (Nat.lt_ge_cases d (length pre)) as [Hd' | Hd'].
        -- rewrite nth_error_app1 in Hn by assumption. now apply (Hinv d pd).
        -- assert (d < length (pre ++ [p])) by (apply nth_error_Some; congruence).
           assert (d = length pre) by lia. subst d.
           rewrite nth_error_app2, Nat.sub_diag in Hn by lia.
           simpl in Hn. now injection Hn as <-.
      * assumption.
Qed.

(** ** The list comprehension selects by index *)

Lemma comprehension_indices {A : Type} (keep : list nat) (l : list A) :
  forall i,
    map Some (Py.comprehension i l keep)
    = map (fun k => nth_error l (k - i))
          (filter (fun k => Py.contains k keep) (seq i (length l))).
Proof.
  induction l as [| x l IH]; intros i; simpl; [reflexivity |].
  assert (Hext : map (fun k => nth_error l (k - S i))
                     (filter (fun k => Py.contains k keep) (seq (S i) (length l)))
                 = map (fun k => nth_error (x :: l) (k - i))
                     (filter (fun k => Py.contains k keep) (seq (S i) (length l)))).
  { apply map_ext_in. intros k Hk.
    apply filter_In in Hk. destruct Hk as [Hk _].
    apply in_seq in Hk.
    replace (k - i) with (S (k - S i)) by lia. reflexivity. }
  destruct (Py.contains i keep); simpl.
  - rewrite Nat.sub_diag. simpl. now rewrite IH, Hext.
  - now rewrite IH, Hext.
Qed.

Lemma comprehension_kept {A : Type} (keep : list nat) (l : list A) :
  map Some (Py.comprehension 0 l keep)
  = map (nth_error l) (Py.kept (length l) keep).
Proof.
  rewrite comprehension_indices. unfold Py.kept.
  apply map_ext. intros k. now rewrite Nat.sub_0_r.
Qed.

Lemma contains_In (k : nat) (keep : list nat) :
  Py.contains k keep = true <-> In k keep.
Proof.
  unfold Py.contains. rewrite existsb_exists. split.
  - intros [x [Hx E]]. apply Nat.eqb_eq in E. now subst.
  - intros H. exists k. split; [assumption | apply Nat.eqb_refl].
Qed.

Lemma filter_none {A : Type} (f : A -> bool) (l : list A) :
  (forall x, In x l -> f x = false) -> filter f l = [].
Proof.
  induction l as [| a l IH]; simpl; intros H; [reflexivity |].
  rewrite (H a) by now left. apply IH. intros x Hx. apply H. now right.
Qed.

(** A strictly increasing list of indices inside [[i, i + n)] is recovered
    by filtering the range on membership. *)
Lemma filter_contains_sorted (n : nat) :
  forall (i : nat) (keep : list nat),
    StronglySorted lt keep ->
    (forall k, In k keep -> i <= k < i + n) ->
    filter (fun k => Py.contains k keep) (seq i n) = keep.
Proof.
  induction n as [| n IH]; intros i keep Hs Hb; simpl.
  - destruct keep as [| a keep]; [reflexivity |].
    specialize (Hb a (or_introl eq_refl)). lia.
  - destruct keep as [| a keep].
    + simpl. apply filter_none. reflexivity.
    + inversion Hs as [| ? ? Hs' Hf]; subst.
      rewrite Forall_forall in Hf.
      destruct (Nat.eq_dec a i) as [-> | Hne].
      * unfold Py.contains at 1. simpl. rewrite Nat.eqb_refl. simpl.
        f_equal.
        transitivity (filter (fun k => Py.contains k keep) (seq (S i) n)).
        -- apply filter_ext_in. intros k Hk. apply in_seq in Hk.
           unfold Py.contains. simpl.
           destruct (Nat.eqb_spec k i); [lia | reflexivity].
        -- apply IH; [assumption |].
           intros k Hk. specialize (Hf k Hk).
           specialize (Hb k (or_intror Hk)). lia.
      * assert (Hi : Py.contains i (a :: keep) = false).
        { destruct (Py.contains i (a :: keep)) eqn:E; [| reflexivity].
          apply contains_In in E. destruct E as [-> | E]; [congruence |].
          specialize (Hf i E). specialize (Hb a (or_introl eq_refl)). lia. }
        rewrite Hi. apply IH; [assumption |].
        intros k Hk. pose proof (Hb k Hk) as Hk'.
        pose proof (Hb a (or_introl eq_refl)) as Ha.
        destruct Hk as [<- | Hk]; [lia |].
        specialize (Hf k Hk). lia.
Qed.

Lemma retained_sorted (vs : list pose) (min_dist : float) :
  StronglySorted lt (retained vs min_dist).
Proof.
  unfold retained, greedy_retained.
  destruct (map spec_position vs) as [| p ps]; [constructor |].
  constructor; [apply greedy_from_sorted |].
  apply Forall_forall. intros x Hx. apply greedy_from_bounds in Hx. lia.
Qed.

Lemma retained_bounds (vs : list pose) (min_dist : float) (k : nat) :
  In k (retained vs min_dist) -> k < length vs.
Proof.
  unfold retained, greedy_retained.
  rewrite <- (length_map spec_position vs).
  destruct (map spec_position vs) as [| p ps]; simpl; [tauto |].
  intros [<- | H]; [lia |]. apply greedy_from_bounds in H. lia.
Qed.

Lemma kept_retained (vs : list pose) (min_dist : float) :
  Py.kept (length vs) (retained vs min_dist) = retained vs min_dist.
Proof.
  apply filter_contains_sorted; [apply retained_sorted |].
  intros k Hk. apply retained_bounds in Hk. lia.
Qed.

(** ** The slice of the stride filter *)

Lemma slice_positions_in_range (start step : Z) (L : nat) (p : Z) :
  step <> 0%Z ->
  In p (Py.slice_positions start step (Z.of_nat L)) ->
  (0 <= p < Z.of_nat L)%Z.
Proof.
  intros Hstep. unfold Py.slice_positions, Py.slice_indices, Py.slice_length.
  destruct (Z.ltb_spec step 0) as [Hneg | Hpos].
  - set (s := if (start <? 0)%Z
              then (if (start + Z.of_nat L <? 0)%Z then (-1)%Z
                    else (start + Z.of_nat L)%Z)
              else (if (Z.of_nat L <=? start)%Z then (Z.of_nat L - 1)%Z
                    else start)).
    assert (Hs : (-1 <= s <= Z.of_nat L - 1)%Z).
    { subst s.
      destruct (Z.ltb_spec start 0); [destruct (Z.ltb_spec (start + Z.of_nat L) 0) |
                                      destruct (Z.leb_spec (Z.of_nat L) start)]; lia. }
    clearbody s. rewrite in_map_iff. intros [k [<- Hk]].
    apply in_seq in Hk.
    destruct (Z.ltb_spec (-1) s) as [Hlt | Hge]; [| simpl in Hk; lia].
    replace (s - -1 - 1)%Z with s in Hk by lia.
    assert (Hd : (0 <= s / - step)%Z) by (apply Z.div_pos; lia).
    assert (Hm : (- step * (s / - step) <= s)%Z) by (apply Z.mul_div_le; lia).
    assert (Hk' : (Z.of_nat k <= s / - step)%Z) by lia.
    nia.
  - set (s := if (start <? 0)%Z
              then (if (start + Z.of_nat L <? 0)%Z then 0%Z
                    else (start + Z.of_nat L)%Z)
              else (if (Z.of_nat L <=? start)%Z then Z.of_nat L else start)).
    assert (Hs : (0 <= s <= Z.of_nat L)%Z).
    { subst s.
      destruct (Z.ltb_spec start 0); [destruct (Z.ltb_spec (start + Z.of_nat L) 0) |
                                      destruct (Z.leb_spec (Z.of_nat L) start)]; lia. }
    clearbody s. rewrite in_map_iff. intros [k [<- Hk]].
    apply in_seq in Hk.
    destruct (Z.ltb_spec s (Z.of_nat L)) as [Hlt | Hge]; [| simpl in Hk; lia].
    assert (Hd : (0 <= (Z.of_nat L - s - 1) / step)%Z) by (apply Z.div_pos; lia).
    assert (Hm : (step * ((Z.of_nat L - s - 1) / step) <= Z.of_nat L - s - 1)%Z)
      by (apply Z.mul_div_le; lia).
    assert (Hk' : (Z.of_nat k <= (Z.of_nat L - s - 1) / step)%Z) by lia.
    nia.
Qed.

Lemma items_in_range {A : Type} (l : list A) (ps : list Z) :
  (forall p, In p ps -> (0 <= p < Z.of_nat (length l))%Z) ->
  map Some (flat_map (Py.item l) ps)
  = map (fun p => nth_error l (Z.to_nat p)) ps.
Proof.
  induction ps as [| p ps IH]; intros H; simpl; [reflexivity |].
  rewrite map_app, IH by (intros q Hq; apply H; now right).
  f_equal. unfold Py.item.
  specialize (H p (or_introl eq_refl)).
  destruct (Z.ltb_spec p 0); [lia |].
  destruct (nth_error l (Z.to_nat p)) eqn:E; [reflexivity |].
  apply nth_error_None in E. lia.
Qed.

Lemma map_Some_inj {A : Type} (l1 l2 : list A) :
  map Some l1 = map Some l2 -> l1 = l2.
Proof.
  revert l2. induction l1 as [| a l1 IH]; intros [| b l2] H;
    try discriminate; [reflexivity |].
  simpl in H. injection H as -> H. f_equal. now apply IH.
Qed.

Lemma stride_from_indices {A : Type} (r N : Z) (l : list A) :
  forall i,
    map Some (stride_from r N i l)
    = map (fun k => nth_error l (k - i))
          (filter (on_stride r N) (seq i (length l))).
Proof.
  induction l as [| x l IH]; intros i; simpl; [reflexivity |].
  assert (Hext : map (fun k => nth_error l (k - S i))
                     (filter (on_stride r N) (seq (S i) (length l)))
                 = map (fun k => nth_error (x :: l) (k - i))
                     (filter (on_stride r N) (seq (S i) (length l)))).
  { apply map_ext_in. intros k Hk.
    apply filter_In in Hk. destruct Hk as [Hk _].
    apply in_seq in Hk.
    replace (k - i) with (S (k - S i)) by lia. reflexivity. }
  destruct (on_stride r N i); simpl.
  - rewrite Nat.sub_diag. simpl. now rewrite IH, Hext.
  - now rewrite IH, Hext.
Qed.

(** For a positive step and a start inside the list the slice visits
    [count] positions. *)
Lemma slice_positions_forward (r N : Z) (L : nat) :
  (1 <= N)%Z -> (0 <= r)%Z ->
  Py.slice_positions r N (Z.of_nat L)
  = map (fun k => (r + Z.of_nat k * N)%Z)
        (seq 0 (if (Z.of_nat L <=? r)%Z then 0
                else Z.to_nat ((Z.of_nat L - r - 1) / N + 1))).
Proof.
  intros HN Hr. unfold Py.slice_positions, Py.slice_indices, Py.slice_length.
  destruct (Z.ltb_spec N 0); [lia |].
  destruct (Z.ltb_spec r 0); [lia |].
  destruct (Z.leb_spec (Z.of_nat L) r).
  - destruct (Z.ltb_spec (Z.of_nat L) (Z.of_nat L)); [lia | reflexivity].
  - destruct (Z.ltb_spec r (Z.of_nat L)); [reflexivity | lia].
Qed.

Lemma div_pred_multiple (d N : Z) :
  (1 <= N)%Z -> (1 <= d)%Z -> (d mod N = 0)%Z ->
  ((d - 1) / N = d / N - 1)%Z.
Proof.
  intros HN Hd Hm. symmetry.
  apply Z.div_unique with (r := (N - 1)%Z); [lia |].
  pose proof (Z.div_mod d N) as E. lia.
Qed.

Lemma div_pred_other (d N : Z) :
  (1 <= N)%Z -> (1 <= d)%Z -> (d mod N <> 0)%Z ->
  ((d - 1) / N = d / N)%Z.
Proof.
  intros HN Hd Hm. symmetry.
  pose proof (Z.mod_pos_bound d N) as B.
  apply Z.div_unique with (r := (d mod N - 1)%Z); [lia |].
  pose proof (Z.div_mod d N) as E. lia.
Qed.

Lemma stride_positions (r N : Z) (L : nat) :
  (1 <= N)%Z -> (0 <= r)%Z ->
  map Z.to_nat (Py.slice_positions r N (Z.of_nat L))
  = filter (on_stride r N) (seq 0 L).
Proof.
  intros HN Hr. rewrite slice_positions_forward by assumption.
  induction L as [| L IH].
  - destruct (Z.leb_spec (Z.of_nat 0) r); [reflexivity | lia].
  - rewrite seq_S, filter_app, <- IH. simpl filter. clear IH.
    unfold on_stride.
    destruct (Z.leb_spec (Z.of_nat (S L)) r) as [H1 | H1].
    + destruct (Z.leb_spec (Z.of_nat L) r); [| lia].
      destruct (Z.leb_spec r (Z.of_nat L)); [lia |].
      reflexivity.
    + destruct (Z.leb_spec r (Z.of_nat L)) as [H2 | H2]; [| lia].
      simpl andb.
      replace (Z.of_nat (S L) - r - 1)%Z with (Z.of_nat L - r)%Z by lia.
      destruct (Z.leb_spec (Z.of_nat L) r) as [H3 | H3].
      * assert (r = Z.of_nat L) by lia. subst r.
        rewrite Z.sub_diag, Z.mod_0_l, Z.div_0_l by lia.
        simpl. f_equal. lia.
      * assert (Hq : (0 <= (Z.of_nat L - r - 1) / N)%Z)
          by (apply Z.div_pos; lia).
        destruct (Z.eqb_spec ((Z.of_nat L - r) mod N) 0) as [Hm | Hm].
        -- rewrite (div_pred_multiple (Z.of_nat L - r) N) in * by lia.
           replace (Z.to_nat ((Z.of_nat L - r) / N + 1))
             with (S (Z.to_nat ((Z.of_nat L - r) / N - 1 + 1))) by lia.
           rewrite seq_S, !map_app. simpl. f_equal. f_equal.
           pose proof (Z.div_mod (Z.of_nat L - r) N) as E.
           rewrite Z2Nat.id by lia. nia.
        -- rewrite (div_pred_other (Z.of_nat L - r) N) by lia.
           now rewrite app_nil_r.
Qed.

(** ** Properties of the distance filter *)


Lemma retained_cons (v : pose) (vs : list pose) (min_dist : float) :
  retained (v :: vs) min_dist
  = 0 :: greedy_from min_dist (spec_position v) 1 (map spec_position vs).
Proof. reflexivity. Qed.

(** C1 (as amended). The loop retains the indices of the greedy walk, in
    increasing order. For two consecutive retained indices [i] and [j] the
    distance of the positions of frames [i] and [j] passes the check
    [>= min_dist]; every index strictly between them is discarded and its
    distance from the position of frame [i] (the last retained frame, not
    its own predecessor) fails the check, which means [< min_dist] as soon
    as neither the distance nor [min_dist] is NaN. The same holds for every
    frame after the last retained one. *)
Theorem retained_is_greedy (vs : list pose) (min_dist : float) :
  let ps := map spec_position vs in
  let R := retained vs min_dist in
  (exists st, for_range min_dist 0 vs (mkLoop None []) = Ok st
              /\ arg_split st = R)
  /\ StronglySorted lt R
  /\ (forall l1 i j l2,
         R = l1 ++ i :: j :: l2 ->
         exists pi pj,
           nth_error ps i = Some pi /\ nth_error ps j = Some pj
           /\ Np.ge (spec_distance pi pj) min_dist = true
           /\ forall d pd,
               i < d < j -> nth_error ps d = Some pd ->
               ~ In d R
               /\ Np.ge (spec_distance pi pd) min_dist = false
               /\ (PrimFloat.is_nan (spec_distance pi pd) = false ->
                   PrimFloat.is_nan min_dist = false ->
                   PrimFloat.ltb (spec_distance pi pd) min_dist = true))
  /\ (forall l1 i,
         R = l1 ++ [i] ->
         exists pi,
           nth_error ps i = Some pi
           /\ forall d pd,
               i < d -> nth_error ps d = Some pd ->
               ~ In d R /\ Np.ge (spec_distance pi pd) min_dist = false).
Proof.
  intros ps R. split; [apply for_range_retained |].
  split; [apply retained_sorted |].
  pose proof (retained_sorted vs min_dist) as Hs. fold R in Hs.
  subst ps R. destruct vs as [| v vs].
  - split.
    + intros l1 i j l2 E. destruct l1; discriminate.
    + intros l1 i E. destruct l1; discriminate.
  - rewrite retained_cons in *. simpl map.
    assert (Hinv : forall d pd, 0 < d ->
                     nth_error [spec_position v] d = Some pd ->
                     PrimFloat.leb min_dist
                       (spec_distance (spec_position v) pd) = false).
    { intros [| [| d]] pd Hd Hn; [lia | discriminate | discriminate]. }
    split.
    + intros l1 i j l2 E.
      destruct (greedy_from_pairs min_dist (map spec_position vs)
                  [spec_position v] (spec_position v) 0 eq_refl Hinv
                  l1 i j l2 E) as [pi [pj [Hi [Hj [Hge Hd]]]]].
      exists pi, pj.
      split; [assumption |]. split; [assumption |]. split; [exact Hge |].
      intros d pd Hlt Hn. split; [| split].
      * intros Hin. rewrite E in Hs, Hin.
        destruct (sorted_consecutive _ _ _ _ Hs) as [_ Hout].
        destruct (Hout d Hin); lia.
      * now apply (Hd d pd).
      * intros Hnd Hnm. apply leb_false_ltb; try assumption.
        now apply (Hd d pd).
    + intros l1 i E.
      destruct (greedy_from_tail min_dist (map spec_position vs)
                  [spec_position v] (spec_position v) 0 eq_refl Hinv
                  l1 i E) as [pi [Hi Hd]].
      exists pi. split; [assumption |].
      intros d pd Hlt Hn. split; [| now apply (Hd d pd)].
      intros Hin. rewrite E in Hs, Hin.
      apply in_app_or in Hin. destruct Hin as [Hin | [<- | []]]; [| lia].
      clear - Hs Hin Hlt. induction l1 as [| a l1 IH]; [contradiction |].
      simpl in Hs. inversion Hs as [| ? ? Hs' Hf]; subst.
      destruct Hin as [-> | Hin]; [| now apply IH].
      rewrite Forall_forall in Hf.
      assert (d < i) by (apply Hf, in_elt). lia.
Qed.

(** C3. The loop's decisions use, for every frame, the product of the
    rotation matrix of its rotation vector with its translation vector, and
    the Euclidean norm of the difference of two such products: a pass over
    frame [i > 0] compares [sqrt (sum of squared differences)] of the
    reference and [Rmat . tvec], and the filter's result is the selection
    of the greedy walk over these positions. *)
Theorem position_is_rotated_translation (objpts : list ObjPts)
  (imgpts : list ImgPts) (names : list string) (vs : list pose)
  (min_dist : float) :
  (forall v st, loop_body min_dist 0 v st
                = Ok (mkLoop (Some (spec_position v)) (arg_split st ++ [0])))
  /\ (forall i v old acc,
         i <> 0 ->
         loop_body min_dist i v (mkLoop (Some old) acc)
         = Ok (if PrimFloat.leb min_dist (spec_distance old (spec_position v))
               then mkLoop (Some (spec_position v)) (acc ++ [i])
               else mkLoop (Some old) acc))
  /\ split_by_distance objpts imgpts names vs min_dist
     = Ok (Py.comprehension 0 objpts
             (greedy_retained min_dist (map spec_position vs)),
           Py.comprehension 0 imgpts
             (greedy_retained min_dist (map spec_position vs)),
           Py.comprehension 0 names
             (greedy_retained min_dist (map spec_position vs))).
Proof.
  split; [intros; apply loop_body_first |].
  split; [intros; now apply loop_body_next |].
  apply split_by_distance_retained.
Qed.

(** C4. On a non-empty pose list the first pass stores the position of
    frame 0 as the reference and retains index 0, whatever [min_dist]; the
    loop ends with index 0 first among the retained indices, and the first
    entries of the three input lists head the three output lists. *)
Theorem first_frame_retained (v : pose) (vs : list pose) (min_dist : float) :
  loop_body min_dist 0 v (mkLoop None [])
  = Ok (mkLoop (Some (Np.dot (as_matrix (from_rotvec (Np.reshape3 (fst v))))
                             (snd v))) [0])
  /\ (exists st rest,
         for_range min_dist 0 (v :: vs) (mkLoop None []) = Ok st
         /\ arg_split st = 0 :: rest)
  /\ forall (o : ObjPts) objpts (i : ImgPts) imgpts (n : string) names,
      exists no ni nn,
        split_by_distance (o :: objpts) (i :: imgpts) (n :: names)
                          (v :: vs) min_dist
        = Ok (o :: no, i :: ni, n :: nn).
Proof.
  split; [| split].
  - rewrite loop_body_first. now rewrite spec_position_dot.
  - destruct (for_range_retained min_dist (v :: vs)) as [st [E R]].
    exists st. eexists. split; [exact E |]. rewrite R. apply retained_cons.
  - intros o objpts i imgpts n names.
    rewrite split_by_distance_retained, retained_cons.
    simpl. eexists. eexists. eexists. reflexivity.
Qed.

Lemma spec_distance_ge_zero (p q : vec3) :
  PrimFloat.is_nan (spec_distance p q) = false ->
  PrimFloat.leb 0 (spec_distance p q) = true.
Proof.
  destruct p as [[p0 p1] p2], q as [[q0 q1] q2].
  unfold spec_distance. apply sqrt_ge_zero.
Qed.

Lemma greedy_from_all (ps : list vec3) :
  forall (last : vec3) (i : nat),
    steps_not_nan last ps = true ->
    greedy_from 0 last i ps = seq i (length ps).
Proof.
  induction ps as [| p ps IH]; intros last i H; simpl in *; [reflexivity |].
  apply andb_prop in H. destruct H as [Hn Hs].
  apply negb_true_iff in Hn.
  rewrite (spec_distance_ge_zero _ _ Hn). f_equal. now apply IH.
Qed.

Lemma retained_all (vs : list pose) :
  frames_not_nan vs = true -> retained vs 0 = seq 0 (length vs).
Proof.
  unfold frames_not_nan, retained, greedy_retained.
  rewrite <- (length_map spec_position vs).
  destruct (map spec_position vs) as [| p ps]; intros H; [reflexivity |].
  simpl. f_equal. now apply greedy_from_all.
Qed.

Lemma comprehension_all {A : Type} (keep : list nat) (l : list A) :
  forall i,
    (forall k, i <= k < i + length l -> Py.contains k keep = true) ->
    Py.comprehension i l keep = l.
Proof.
  induction l as [| x l IH]; intros i H; simpl; [reflexivity |].
  rewrite (H i) by (simpl; lia). f_equal.
  apply IH. intros k Hk. apply H. simpl. lia.
Qed.

Lemma comprehension_seq {A : Type} (n : nat) (l : list A) :
  length l <= n -> Py.comprehension 0 l (seq 0 n) = l.
Proof.
  intros H. apply comprehension_all. intros k Hk.
  apply contains_In, in_seq. lia.
Qed.

(** C5 (as amended). With [min_dist = 0], four lists of one length and no
    NaN among the distances of consecutive positions, the filter retains
    every frame: the three outputs are the three inputs. *)
Theorem zero_min_dist_keeps_all (objpts : list ObjPts) (imgpts : list ImgPts)
  (names : list string) (vs : list pose) :
  length objpts = length vs ->
  length imgpts = length vs ->
  length names = length vs ->
  frames_not_nan vs = true ->
  split_by_distance objpts imgpts names vs 0 = Ok (objpts, imgpts, names).
Proof.
  intros Ho Hi Hn Hnan.
  rewrite split_by_distance_retained, (retained_all vs Hnan).
  now rewrite !comprehension_seq by lia.
Qed.

(** C8. Empty input gives three empty lists; a single frame comes back as
    it is in all three lists. *)
Theorem empty_and_single_frame (min_dist : float) :
  split_by_distance [] [] [] [] min_dist = Ok ([], [], [])
  /\ forall (o : ObjPts) (i : ImgPts) (n : string) (v : pose),
      split_by_distance [o] [i] [n] [v] min_dist = Ok ([o], [i], [n]).
Proof.
  split; [reflexivity |].
  intros o i n v. now rewrite split_by_distance_retained.
Qed.

(** On four lists of one length the filter returns, for each of
    [objpts], [imgpts] and [names], the list of its entries at the retained
    indices, taken in increasing order and unchanged; the pose list is no
    part of the result, and the filter step of the script leaves the loaded
    record and the pose list as they were, rebinding only the three
    filtered variables. *)
Theorem filter_is_subselection (p : PFile) (objpts : list ObjPts)
  (imgpts : list ImgPts) (names : list string) (vs : list pose)
  (args : Namespace) :
  length objpts = length vs ->
  length imgpts = length vs ->
  length names = length vs ->
  filterdist args = true ->
  exists nobj nimg nnames,
    split_by_distance objpts imgpts names vs (mindist args)
    = Ok (nobj, nimg, nnames)
    /\ map Some nobj = map (nth_error objpts) (retained vs (mindist args))
    /\ map Some nimg = map (nth_error imgpts) (retained vs (mindist args))
    /\ map Some nnames = map (nth_error names) (retained vs (mindist args))
    /\ StronglySorted lt (retained vs (mindist args))
    /\ filter_lists args (mkVars p objpts imgpts names vs)
       = Ok (mkVars p nobj nimg nnames vs).
Proof.
  intros Ho Hi Hn Hfd.
  exists (Py.comprehension 0 objpts (retained vs (mindist args))),
         (Py.comprehension 0 imgpts (retained vs (mindist args))),
         (Py.comprehension 0 names (retained vs (mindist args))).
  split; [apply split_by_distance_retained |].
  rewrite !comprehension_kept, Ho, Hi, Hn, kept_retained.
  repeat split; try reflexivity; [apply retained_sorted |].
  unfold filter_lists. rewrite Hfd. simpl.
  now rewrite split_by_distance_retained.
Qed.

(** ** Properties of the stride filter and of the dispatch *)

(** [on_stride r N] is membership in [{r, r + N, r + 2N, ...}]. *)
Lemma on_stride_iff (r N : Z) (i : nat) :
  (1 <= N)%Z ->
  on_stride r N i = true
  <-> exists k : nat, Z.of_nat i = (r + Z.of_nat k * N)%Z.
Proof.
  intros HN. unfold on_stride. rewrite andb_true_iff, Z.leb_le, Z.eqb_eq.
  split.
  - intros [Hr Hm]. exists (Z.to_nat ((Z.of_nat i - r) / N)).
    pose proof (Z.div_mod (Z.of_nat i - r) N) as E.
    assert (0 <= (Z.of_nat i - r) / N)%Z by (apply Z.div_pos; lia).
    rewrite Z2Nat.id by assumption. lia.
  - intros [k E]. split; [nia |].
    replace (Z.of_nat i - r)%Z with (Z.of_nat k * N)%Z by lia.
    apply Z.mod_mul. lia.
Qed.

Lemma slice_from_stride {A : Type} (r N : Z) (l : list A) :
  (1 <= N)%Z -> (0 <= r)%Z ->
  Py.slice_from r N l = Ok (stride_spec r N l).
Proof.
  intros HN Hr. unfold Py.slice_from, stride_spec.
  destruct (Z.eqb_spec N 0); [lia |]. f_equal.
  apply map_Some_inj.
  rewrite items_in_range
    by (intros p Hp; apply (slice_positions_in_range r N); [lia | exact Hp]).
  rewrite stride_from_indices, <- stride_positions, map_map by assumption.
  apply map_ext. intros p. now rewrite Nat.sub_0_r.
Qed.

Lemma stride_from_identity {A : Type} (l : list A) :
  forall i, stride_from 0 1 i l = l.
Proof.
  induction l as [| x l IH]; intros i; simpl; [reflexivity |].
  unfold on_stride. rewrite Z.mod_1_r.
  destruct (Z.leb_spec 0 (Z.of_nat i)); [| lia].
  simpl. now rewrite IH.
Qed.

(** C2. With [reduction = N >= 1] and [residue = r >= 0] the stride filter
    returns, for each of the three lists, the entries at the indices
    [r, r + N, r + 2N, ...] below the length, in order; with [N = 1] and
    [r = 0] the lists come back unchanged; five names [f0 .. f4] with
    [N = 2] and [r = 1] give [f1; f3]. *)
Theorem stride_filter_indices (args : Namespace) (s : vars) :
  filterdist args = false ->
  filtertime args = true ->
  (1 <= reduction args)%Z ->
  (0 <= residue args)%Z ->
  filter_lists args s
  = Ok (mkVars (pFile s)
          (stride_spec (residue args) (reduction args) (objpoints s))
          (stride_spec (residue args) (reduction args) (imgpoints s))
          (stride_spec (residue args) (reduction args) (ret_names s))
          (vecs s))
  /\ (reduction args = 1%Z -> residue args = 0%Z ->
      filter_lists args s = Ok s)
  /\ Py.slice_from 1 2 five_names = Ok ["f1"; "f3"]%string.
Proof.
  intros Hfd Hft HN Hr.
  assert (E : filter_lists args s
              = Ok (mkVars (pFile s)
                      (stride_spec (residue args) (reduction args) (objpoints s))
                      (stride_spec (residue args) (reduction args) (imgpoints s))
                      (stride_spec (residue args) (reduction args) (ret_names s))
                      (vecs s))).
  { unfold filter_lists. rewrite Hfd, Hft.
    now rewrite !slice_from_stride by assumption. }
  split; [exact E |]. split; [| reflexivity].
  intros H1 H0. rewrite E, H1, H0. unfold stride_spec.
  rewrite !stride_from_identity. now destruct s.
Qed.

(** C7. The dispatch applies one policy: the distance filter alone when
    [filterdist] is set, else the stride filter alone when [filtertime] is
    set, else nothing, and then the variables are passed on as loaded. *)
Theorem one_policy_per_run (args : Namespace) (s : vars) :
  filter_lists args s = apply_policy (policy_of args) s
  /\ filter_lists args s
     = match filterdist args, filtertime args with
       | true, _ => apply_policy (ByDistance (mindist args)) s
       | false, true =>
           apply_policy (ByStride (reduction args) (residue args)) s
       | false, false => Ok s
       end.
Proof.
  unfold filter_lists, policy_of.
  destruct (filterdist args), (filtertime args); simpl;
    rewrite ?split_by_distance_retained; split; reflexivity.
Qed.

(** C10. With both flags set only the distance filter runs: the result is
    that of the distance policy, it is a value (no exception), and it does
    not depend on [reduction] and [residue], a zero stride included. *)
Theorem distance_takes_precedence (args : Namespace) (s : vars) :
  filterdist args = true ->
  filtertime args = true ->
  filter_lists args s = apply_policy (ByDistance (mindist args)) s
  /\ (exists s', filter_lists args s = Ok s')
  /\ forall N r : Z,
      filter_lists (mkArgs (file args) (extended args) (save args)
                           true true (mindist args) N r) s
      = filter_lists args s.
Proof.
  intros Hfd Hft. unfold filter_lists. rewrite Hfd. simpl.
  rewrite !split_by_distance_retained. simpl.
  split; [reflexivity |]. split; [eexists; reflexivity | reflexivity].
Qed.

Lemma all_indices {A : Type} (l : list A) :
  map Some l = map (nth_error l) (Py.kept (length l) (seq 0 (length l))).
Proof.
  now rewrite <- comprehension_kept, comprehension_seq.
Qed.

(** C6. On lists [objpoints], [imgpoints] and [ret_names] of one length,
    whichever filter runs, one list of original indices yields all three
    results: position [k] of each output holds the entry of the
    corresponding input at the index [idx[k]]. *)
Theorem filtering_keeps_alignment (args : Namespace) (s s' : vars) :
  length (objpoints s) = length (imgpoints s) ->
  length (imgpoints s) = length (ret_names s) ->
  filter_lists args s = Ok s' ->
  exists idx : list nat,
    map Some (objpoints s') = map (nth_error (objpoints s)) idx
    /\ map Some (imgpoints s') = map (nth_error (imgpoints s)) idx
    /\ map Some (ret_names s') = map (nth_error (ret_names s)) idx.
Proof.
  intros Hoi Hin. unfold filter_lists.
  destruct (filterdist args).
  - rewrite split_by_distance_retained. simpl. intros E. injection E as <-.
    exists (Py.kept (length (objpoints s))
                    (retained (vecs s) (mindist args))).
    simpl. rewrite !comprehension_kept, <- Hin, <- Hoi. auto.
  - destruct (filtertime args).
    + unfold Py.slice_from.
      destruct (Z.eqb_spec (reduction args) 0) as [Hz | Hnz];
        [discriminate |].
      simpl. intros E. injection E as <-.
      exists (map Z.to_nat
                (Py.slice_positions (residue args) (reduction args)
                   (Z.of_nat (length (objpoints s))))).
      simpl. rewrite <- Hin, <- Hoi, !map_map.
      repeat split; apply items_in_range; intros p Hp;
        rewrite <- ?Hin, <- ?Hoi;
        apply (slice_positions_in_range _ _ _ _ Hnz Hp).
    + intros E. injection E as <-.
      exists (Py.kept (length (objpoints s)) (seq 0 (length (objpoints s)))).
      split; [apply all_indices |].
      split; [rewrite Hoi | rewrite Hoi, Hin]; apply all_indices.
Qed.

End FrameSelection.

Arguments loop_body {Rotation} from_rotvec as_matrix min_dist i v st.
Arguments for_range {Rotation} from_rotvec as_matrix min_dist i vecs st.
Arguments split_by_distance {Rotation} from_rotvec as_matrix {ObjPts ImgPts}
  objpts imgpts names vecs min_dist.
Arguments spec_position {Rotation} from_rotvec as_matrix v.
Arguments retained {Rotation} from_rotvec as_matrix vecs min_dist.
Arguments frames_not_nan {Rotation} from_rotvec as_matrix vecs.
Arguments discarded_are_closer {Rotation} from_rotvec as_matrix vecs min_dist.
Arguments mkPFile {ObjPts ImgPts} points_3D points_2D name_points rt_vectors.
Arguments mkVars {ObjPts ImgPts} pFile objpoints imgpoints ret_names vecs.
Arguments unpack {ObjPts ImgPts} p.
Arguments points_3D {ObjPts ImgPts} p.
Arguments points_2D {ObjPts ImgPts} p.
Arguments name_points {ObjPts ImgPts} p.
Arguments rt_vectors {ObjPts ImgPts} p.
Arguments pFile {ObjPts ImgPts} v.
Arguments objpoints {ObjPts ImgPts} v.
Arguments imgpoints {ObjPts ImgPts} v.
Arguments ret_names {ObjPts ImgPts} v.
Arguments vecs {ObjPts ImgPts} v.
Arguments filter_lists {Rotation} from_rotvec as_matrix {ObjPts ImgPts}
  args s.
Arguments apply_policy {Rotation} from_rotvec as_matrix {ObjPts ImgPts} p s.

(** * Sample runs *)

(** A loaded record of three frames and one of five. *)
Definition three_pfile : PFile nat nat :=
  mkPFile [10; 11; 12] [20; 21; 22] ["a"; "b"; "c"]%string three_frames.

Definition nan_pfile : PFile nat nat :=
  mkPFile [10; 11; 12] [20; 21; 22] ["a"; "b"; "c"]%string nan_frames.

Definition five_pfile : PFile nat nat :=
  mkPFile [10; 11; 12; 13; 14] [20; 21; 22; 23; 24] five_names
    [along_x 0; along_x 1; along_x 2; along_x 3; along_x 4]%float.

Definition args_distance (min_dist : float) : Namespace :=
  mkArgs "run" false false true false min_dist 1 0.

Definition args_stride (N r : Z) : Namespace :=
  mkArgs "run" false false false true 0 N r.

(** Both flags set, with a zero stride. *)
Definition args_both : Namespace :=
  mkArgs "run" false false true true 0x1p-1 0 0.

(** With the identity rotation a frame's position is its translation
    vector itself, where the camera centre would be its opposite. *)
Example position_of_identity_rotation :
  spec_position from_rotvec_zero as_matrix_id (zero3, (1, 2, 3)%float)
  = (1, 2, 3)%float.
Proof. reflexivity. Qed.

(** The three frames at 0.0, 0.05 and 1.0 with [min_dist = 0.5]: frames 0
    and 2 stay, frame 1 goes. *)
Lemma retained_is_greedy_witness :
  retained from_rotvec_zero as_matrix_id three_frames 0x1p-1 = [0; 2]
  /\ exists pi pj,
      nth_error (map (spec_position from_rotvec_zero as_matrix_id)
                     three_frames) 0 = Some pi
      /\ nth_error (map (spec_position from_rotvec_zero as_matrix_id)
                        three_frames) 2 = Some pj
      /\ Np.ge (spec_distance pi pj) 0x1p-1 = true
      /\ forall d pd,
          0 < d < 2 ->
          nth_error (map (spec_position from_rotvec_zero as_matrix_id)
                         three_frames) d = Some pd ->
          ~ In d (retained from_rotvec_zero as_matrix_id three_frames 0x1p-1)
          /\ Np.ge (spec_distance pi pd) 0x1p-1 = false
          /\ (PrimFloat.is_nan (spec_distance pi pd) = false ->
              PrimFloat.is_nan 0x1p-1 = false ->
              PrimFloat.ltb (spec_distance pi pd) 0x1p-1 = true).
Proof.
  split; [vm_compute; reflexivity |].
  apply (proj1 (proj2 (proj2 (retained_is_greedy mat3 from_rotvec_zero
                                as_matrix_id three_frames 0x1p-1)))
           [] 0 2 []).
  vm_compute. reflexivity.
Defined.

(** A NaN translation in the middle frame: frame 1 is discarded between
    the retained frames 0 and 2, and its distance from frame 0 is NaN, not
    below [min_dist]. *)
Lemma nan_frame_not_closer :
  retained from_rotvec_zero as_matrix_id nan_frames 0x1p-1 = [0; 2]
  /\ ~ discarded_are_closer from_rotvec_zero as_matrix_id nan_frames 0x1p-1.
Proof.
  split; [vm_compute; reflexivity |].
  intros H.
  pose proof (H [] 0 2 [] 1
                (spec_position from_rotvec_zero as_matrix_id (along_x 0))
                (spec_position from_rotvec_zero as_matrix_id
                   (along_x PrimFloat.nan))) as X.
  assert (E : retained from_rotvec_zero as_matrix_id nan_frames 0x1p-1
              = [] ++ [0; 2]) by (vm_compute; reflexivity).
  specialize (X E (conj (Nat.lt_succ_diag_r 0) (Nat.lt_succ_diag_r 1))
                eq_refl eq_refl).
  vm_compute in X. discriminate X.
Qed.

(** The same frames with [min_dist = 0]: the NaN frame is dropped, so the
    outputs are not the inputs. *)
Lemma nan_frame_dropped_at_zero :
  split_by_distance from_rotvec_zero as_matrix_id
    (points_3D nan_pfile) (points_2D nan_pfile) (name_points nan_pfile)
    (rt_vectors nan_pfile) 0
  = Ok ([10; 12], [20; 22], ["a"; "c"]%string)
  /\ split_by_distance from_rotvec_zero as_matrix_id
       (points_3D nan_pfile) (points_2D nan_pfile) (name_points nan_pfile)
       (rt_vectors nan_pfile) 0
     <> Ok (points_3D nan_pfile, points_2D nan_pfile, name_points nan_pfile).
Proof.
  split; [vm_compute; reflexivity |].
  vm_compute. discriminate.
Qed.

Lemma zero_min_dist_keeps_all_witness :
  split_by_distance from_rotvec_zero as_matrix_id
    (points_3D three_pfile) (points_2D three_pfile) (name_points three_pfile)
    (rt_vectors three_pfile) 0
  = Ok (points_3D three_pfile, points_2D three_pfile, name_points three_pfile).
Proof.
  apply (zero_min_dist_keeps_all mat3 from_rotvec_zero as_matrix_id nat nat);
    reflexivity.
Defined.

(** Five frames, every second one from offset 1. *)
Lemma stride_filter_indices_witness :
  filter_lists from_rotvec_zero as_matrix_id (args_stride 2 1)
    (unpack five_pfile)
  = Ok (mkVars five_pfile [11; 13] [21; 23] ["f1"; "f3"]%string
          (rt_vectors five_pfile)).
Proof.
  destruct (stride_filter_indices mat3 from_rotvec_zero as_matrix_id nat nat
              (args_stride 2 1) (unpack five_pfile)) as [E _];
    [reflexivity | reflexivity | simpl; lia | simpl; lia |].
  exact E.
Defined.

Lemma filtering_keeps_alignment_witness :
  exists idx : list nat,
    map Some [10; 12] = map (nth_error [10; 11; 12]) idx
    /\ map Some [20; 22] = map (nth_error [20; 21; 22]) idx
    /\ map Some ["a"; "c"]%string
       = map (nth_error ["a"; "b"; "c"]%string) idx.
Proof.
  apply (filtering_keeps_alignment mat3 from_rotvec_zero as_matrix_id nat nat
           (args_distance 0x1p-1) (unpack three_pfile)
           (mkVars three_pfile [10; 12] [20; 22] ["a"; "c"]%string
              three_frames));
    [reflexivity | reflexivity | vm_compute; reflexivity].
Defined.

Lemma filter_is_subselection_witness :
  exists nobj nimg nnames,
    split_by_distance from_rotvec_zero as_matrix_id
      [10; 11; 12] [20; 21; 22] ["a"; "b"; "c"]%string three_frames 0x1p-1
    = Ok (nobj, nimg, nnames)
    /\ map Some nobj = map (nth_error [10; 11; 12]) [0; 2]
    /\ map Some nimg = map (nth_error [20; 21; 22]) [0; 2]
    /\ map Some nnames = map (nth_error ["a"; "b"; "c"]%string) [0; 2]
    /\ StronglySorted lt [0; 2]
    /\ filter_lists from_rotvec_zero as_matrix_id (args_distance 0x1p-1)
         (mkVars three_pfile [10; 11; 12] [20; 21; 22] ["a"; "b"; "c"]%string
            three_frames)
       = Ok (mkVars three_pfile nobj nimg nnames three_frames).
Proof.
  apply (filter_is_subselection mat3 from_rotvec_zero as_matrix_id nat nat
           three_pfile [10; 11; 12] [20; 21; 22] ["a"; "b"; "c"]%string
           three_frames (args_distance 0x1p-1));
    reflexivity.
Defined.

(** Both flags and a zero stride: the distance filter runs, no
    [ValueError]. *)
Lemma distance_takes_precedence_witness :
  filter_lists from_rotvec_zero as_matrix_id args_both (unpack three_pfile)
  = Ok (mkVars three_pfile [10; 12] [20; 22] ["a"; "c"]%string three_frames)
  /\ Py.slice_from (residue args_both) (reduction args_both)
       (objpoints (unpack three_pfile)) = Raise ValueError.
Proof.
  split; [| reflexivity].
  rewrite (proj1 (distance_takes_precedence mat3 from_rotvec_zero as_matrix_id
                    nat nat args_both (unpack three_pfile)
                    eq_refl eq_refl)).
  vm_compute. reflexivity.
Defined.

(** * Further behaviour of the script *)

(** ** Definitions *)

(** The sign of a square root: never negative. *)
Definition SF_nonneg (s : spec_float) : bool :=
  match s with
  | S754_zero _ => true
  | S754_infinity b => negb b
  | S754_finite b _ _ => negb b
  | S754_nan => false
  end.

(** Index [i] lies in the residue class of [r] modulo [N]. *)
Definition in_class (r N : Z) (i : nat) : bool :=
  (Z.of_nat i mod N =? r)%Z.

(** [s[:stop]] on a Python string, a character of the model standing for
    one code point. *)
Definition str_slice_to (stop : Z) (s : string) : string :=
  let len := Z.of_nat (String.length s) in
  let e := if (stop <? 0)%Z
           then (if (stop + len <? 0)%Z then 0%Z else (stop + len)%Z)
           else (if (len <=? stop)%Z then len else stop) in
  substring 0 (Z.to_nat e) s.

(** The pickle the script opens. *)
Definition dataset_path (args : Namespace) : string :=
  ("./datasets/pkl-files/" ++ file args ++ ".pkl")%string.

(** The file the results are written to when [--save] is given. *)
Definition results_path (args : Namespace) : string :=
  ("./results/" ++ str_slice_to (-14) (file args) ++ ".yml")%string.

(** A failed lookup [pFile[key]]. *)
Inductive key_error : Type :=
| KeyError (key : string).

Definition getitem {V : Type} (d : string -> option V) (key : string)
  : V + key_error :=
  match d key with
  | Some v => inl v
  | None => inr (KeyError key)
  end.

(** The variables bound by "Unpack lists" and the lines after it. *)
Record unpacked (V : Type) : Type := mkUnpacked {
  u_objpoints : V;
  u_imgpoints : V;
  u_ret_names : V;
  u_camera_matrix : V;
  u_dist_coeff : V;
  u_img_shape : V;
  u_calibfile : V;
  u_vecs : V
}.

Arguments mkUnpacked {V} _ _ _ _ _ _ _ _.

Definition and_then {A B : Type} (c : A + key_error)
  (k : A -> B + key_error) : B + key_error :=
  match c with
  | inl a => k a
  | inr e => inr e
  end.

(** The eight lookups, in the order of the script. *)
Definition unpack_record {V : Type} (pFile : string -> option V)
  : unpacked V + key_error :=
  and_then (getitem pFile "3D_points") (fun objpoints =>
  and_then (getitem pFile "2D_points") (fun imgpoints =>
  and_then (getitem pFile "name_points") (fun ret_names =>
  and_then (getitem pFile "init_mtx") (fun camera_matrix =>
  and_then (getitem pFile "init_dist") (fun dist_coeff =>
  and_then (getitem pFile "img_shape") (fun img_shape =>
  and_then (getitem pFile "init_calibfile") (fun calibfile =>
  and_then (getitem pFile "rt_vectors") (fun vecs =>
  inl (mkUnpacked objpoints imgpoints ret_names camera_matrix dist_coeff
         img_shape calibfile vecs))))))))).

Definition required_keys : list string :=
  ["3D_points"; "2D_points"; "name_points"; "init_mtx"; "init_dist";
   "img_shape"; "init_calibfile"; "rt_vectors"]%string.

(** Sample runs for the properties below. *)
Definition args_named (name : string) : Namespace :=
  mkArgs name false true false false 0 1 0.

Definition two_frames : list pose :=
  [along_x 0; along_x 0x1.999999999999ap-5]%float.

Definition late_frame : list pose := [along_x 1]%float.

(** ** More on binary64 comparisons *)

Lemma SFcompare_refl (s : spec_float) :
  s <> S754_nan -> SFcompare s s = Some Eq.
Proof.
  destruct s as [b | b | | b m e]; intros H; try congruence; simpl.
  - reflexivity.
  - now destruct b.
  - change (Pos.compare_cont Eq m m) with (Pos.compare m m).
    rewrite Z.compare_refl, Pos.compare_refl. now destruct b.
Qed.

Lemma is_nan_true_SF (x : float) :
  PrimFloat.is_nan x = true -> Prim2SF x = S754_nan.
Proof.
  unfold PrimFloat.is_nan. rewrite FloatAxioms.eqb_spec. unfold SFeqb.
  intros H. destruct (Prim2SF x) as [b | b | | b m e] eqn:E; try reflexivity;
    rewrite SFcompare_refl in H by discriminate; discriminate.
Qed.

Lemma leb_nan_l (x y : float) :
  PrimFloat.is_nan x = true -> PrimFloat.leb x y = false.
Proof.
  intros H. rewrite FloatAxioms.leb_spec, (is_nan_true_SF x H).
  reflexivity.
Qed.

Lemma sqrt_SF_nonneg (x : float) :
  PrimFloat.is_nan (PrimFloat.sqrt x) = false ->
  SF_nonneg (Prim2SF (PrimFloat.sqrt x)) = true.
Proof.
  intros H. apply is_nan_SF in H. revert H.
  rewrite FloatAxioms.sqrt_spec. unfold SF64sqrt, SFsqrt.
  destruct (Prim2SF x) as [s | s | | s m e]; try destruct s;
    try congruence; try reflexivity.
  destruct (SFsqrt_core_binary prec emax (Z.pos m) e) as [[mz ez] lz].
  unfold binary_round_aux.
  destruct (shr_fexp prec emax mz ez lz) as [mrs' e'].
  destruct (shr_fexp prec emax _ e' loc_Exact) as [mrs'' e''].
  destruct (shr_m mrs''); try congruence; try reflexivity.
  destruct (Z.leb e'' (emax - prec)); reflexivity.
Qed.

Lemma leb_nonpos_nonneg (m d : float) :
  PrimFloat.leb m 0 = true ->
  SF_nonneg (Prim2SF d) = true ->
  PrimFloat.leb m d = true.
Proof.
  rewrite !FloatAxioms.leb_spec.
  change (Prim2SF 0) with (S754_zero false).
  unfold SFleb.
  destruct (Prim2SF m) as [bm | bm | | bm mm em],
           (Prim2SF d) as [bd | bd | | bd md ed];
    simpl; try discriminate; try reflexivity;
    try destruct bm; try destruct bd; simpl;
    try discriminate; try reflexivity.
Qed.

Lemma leb_nonpos_sqrt (m x : float) :
  PrimFloat.leb m 0 = true ->
  PrimFloat.is_nan (PrimFloat.sqrt x) = false ->
  PrimFloat.leb m (PrimFloat.sqrt x) = true.
Proof.
  intros Hm Hx. apply leb_nonpos_nonneg; [assumption |].
  now apply sqrt_SF_nonneg.
Qed.

(** ** More on the distance filter *)

Section MoreDistance.

Variable Rotation : Type.
Variable from_rotvec : vec3 -> Rotation.
Variable as_matrix : Rotation -> mat3.
Variables ObjPts ImgPts : Type.

Lemma comprehension_none {A : Type} (keep : list nat) (l : list A) :
  forall i,
    (forall k, i <= k -> Py.contains k keep = false) ->
    Py.comprehension i l keep = [].
Proof.
  induction l as [| x l IH]; intros i H; simpl; [reflexivity |].
  rewrite (H i) by lia. apply IH. intros k Hk. apply H. lia.
Qed.

Lemma contains_false (k : nat) (keep : list nat) :
  ~ In k keep -> Py.contains k keep = false.
Proof.
  intros H. destruct (Py.contains k keep) eqn:E; [| reflexivity].
  apply contains_In in E. contradiction.
Qed.

Lemma comprehension_ext {A : Type} (keep keep' : list nat) (l : list A) :
  forall i,
    (forall k, i <= k -> Py.contains k keep = Py.contains k keep') ->
    Py.comprehension i l keep = Py.comprehension i l keep'.
Proof.
  induction l as [| x l IH]; intros i H; simpl; [reflexivity |].
  rewrite (H i) by lia. rewrite (IH (S i)) by (intros k Hk; apply H; lia).
  reflexivity.
Qed.

Lemma comprehension_drop_lt {A : Type} (a : nat) (keep : list nat)
  (l : list A) (i : nat) :
  a < i ->
  Py.comprehension i l (a :: keep) = Py.comprehension i l keep.
Proof.
  intros Ha. apply comprehension_ext. intros k Hk.
  unfold Py.contains. simpl.
  destruct (Nat.eqb_spec k a); [lia | reflexivity].
Qed.

Lemma comprehension_length {A : Type} (keep : list nat) (l : list A) :
  forall i, length (Py.comprehension i l keep) <= length l.
Proof.
  induction l as [| x l IH]; intros i; simpl; [lia |].
  destruct (Py.contains i keep); simpl; specialize (IH (S i)); lia.
Qed.

Lemma comprehension_map {A B : Type} (f : A -> B) (keep : list nat)
  (l : list A) :
  forall i,
    map f (Py.comprehension i l keep) = Py.comprehension i (map f l) keep.
Proof.
  induction l as [| x l IH]; intros i; simpl; [reflexivity |].
  destruct (Py.contains i keep); simpl; now rewrite IH.
Qed.

(** Entries at or beyond the bound of the kept indices play no role. *)
Lemma comprehension_firstn {A : Type} (n : nat) (keep : list nat)
  (l : list A) :
  (forall k, In k keep -> k < n) ->
  forall i,
    Py.comprehension i l keep = Py.comprehension i (firstn (n - i) l) keep.
Proof.
  intros Hb. induction l as [| x l IH]; intros i.
  - now rewrite firstn_nil.
  - destruct (n - i) as [| m] eqn:E.
    + simpl firstn. rewrite comprehension_none; [reflexivity |].
      intros k Hk. apply contains_false. intros Hin.
      specialize (Hb k Hin). lia.
    + simpl. replace m with (n - S i) by lia. now rewrite <- IH.
Qed.

Lemma comprehension_cut {A : Type} (n : nat) (keep : list nat)
  (l : list A) :
  (forall k, In k keep -> k < n) ->
  Py.comprehension 0 l keep = Py.comprehension 0 (firstn n l) keep.
Proof.
  intros Hb. rewrite (comprehension_firstn n keep l Hb 0).
  now rewrite Nat.sub_0_r.
Qed.

Lemma greedy_from_none (min_dist : float) (ps : list vec3) :
  forall (last : vec3) (i : nat),
    greedy_from min_dist last i ps = []
    <-> forall p, In p ps ->
                  PrimFloat.leb min_dist (spec_distance last p) = false.
Proof.
  induction ps as [| p ps IH]; intros last i; simpl.
  - split; [intros _ q [] | reflexivity].
  - destruct (PrimFloat.leb min_dist (spec_distance last p)) eqn:E.
    + split; [discriminate |]. intros H.
      rewrite (H p (or_introl eq_refl)) in E. discriminate.
    + rewrite IH. split.
      * intros H q [<- | Hq]; [assumption | now apply H].
      * intros H q Hq. apply H. now right.
Qed.

Lemma greedy_from_all_nonpos (min_dist : float) (ps : list vec3) :
  PrimFloat.leb min_dist 0 = true ->
  forall (last : vec3) (i : nat),
    steps_not_nan last ps = true ->
    greedy_from min_dist last i ps = seq i (length ps).
Proof.
  intros Hm.
  induction ps as [| p ps IH]; intros last i H; simpl in *; [reflexivity |].
  apply andb_prop in H. destruct H as [Hn Hs].
  apply negb_true_iff in Hn.
  assert (E : PrimFloat.leb min_dist (spec_distance last p) = true).
  { destruct last as [[a0 a1] a2], p as [[b0 b1] b2].
    unfold spec_distance in *. now apply leb_nonpos_sqrt. }
  rewrite E. f_equal. now apply IH.
Qed.

(** The walk over its own selection keeps everything. *)
Lemma greedy_from_fixpoint (min_dist : float) (ps : list vec3) :
  forall (last : vec3) (i j : nat),
    greedy_from min_dist last j
      (Py.comprehension i ps (greedy_from min_dist last i ps))
    = seq j (length (greedy_from min_dist last i ps)).
Proof.
  induction ps as [| p ps IH]; intros last i j; simpl; [reflexivity |].
  destruct (PrimFloat.leb min_dist (spec_distance last p)) eqn:E.
  - unfold Py.contains at 1. simpl. rewrite Nat.eqb_refl. simpl.
    rewrite E, comprehension_drop_lt by lia. simpl. f_equal. apply IH.
  - rewrite contains_false; [apply IH |].
    intros Hin.
    apply (greedy_from_bounds Rotation from_rotvec as_matrix) in Hin. lia.
Qed.

(** Frames appended later never change the walk over the earlier ones. *)
Lemma greedy_from_app (min_dist : float) (ps qs : list vec3) :
  forall (last : vec3) (i : nat),
    exists last',
      greedy_from min_dist last i (ps ++ qs)
      = greedy_from min_dist last i ps
        ++ greedy_from min_dist last' (i + length ps) qs.
Proof.
  induction ps as [| p ps IH]; intros last i; simpl.
  - exists last. now rewrite Nat.add_0_r.
  - destruct (PrimFloat.leb min_dist (spec_distance last p)).
    + destruct (IH p (S i)) as [l' E]. exists l'. rewrite E. simpl.
      now rewrite Nat.add_succ_r.
    + destruct (IH last (S i)) as [l' E]. exists l'. rewrite E.
      now rewrite Nat.add_succ_r.
Qed.

Lemma comprehension_app {A : Type} (l l' : list A) (keep rest : list nat) :
  forall i,
    (forall k, In k keep -> k < i + length l) ->
    (forall k, In k rest -> i + length l <= k) ->
    Py.comprehension i (l ++ l') (keep ++ rest)
    = Py.comprehension i l keep
      ++ Py.comprehension (i + length l) l' rest.
Proof.
  induction l as [| x l IH]; intros i Hk Hr; simpl.
  - rewrite Nat.add_0_r. apply comprehension_ext. intros k Hle.
    unfold Py.contains. rewrite existsb_app.
    replace (existsb (Nat.eqb k) keep) with false; [reflexivity |].
    symmetry. apply (contains_false k keep). intros Hin.
    specialize (Hk k Hin). simpl in Hk. lia.
  - assert (Hc : Py.contains i (keep ++ rest) = Py.contains i keep).
    { unfold Py.contains. rewrite existsb_app.
      replace (existsb (Nat.eqb i) rest) with false;
        [apply orb_false_r |].
      symmetry. apply (contains_false i rest). intros Hin.
      specialize (Hr i Hin). simpl in Hr. lia. }
    rewrite Hc, (IH (S i)); simpl in *.
    + replace (i + S (length l)) with (S (i + length l)) by lia.
      now destruct (Py.contains i keep).
    + intros k Hin. specialize (Hk k Hin). lia.
    + intros k Hin. specialize (Hr k Hin). lia.
Qed.

Lemma retained_app (vs ws : list pose) (min_dist : float) :
  exists rest,
    retained from_rotvec as_matrix (vs ++ ws) min_dist
    = retained from_rotvec as_matrix vs min_dist ++ rest
    /\ forall k, In k rest -> length vs <= k.
Proof.
  destruct vs as [| v vs].
  - exists (retained from_rotvec as_matrix ws min_dist).
    split; [reflexivity |]. intros k _. simpl. lia.
  - simpl app. rewrite !retained_cons, map_app.
    destruct (greedy_from_app min_dist
                (map (spec_position from_rotvec as_matrix) vs)
                (map (spec_position from_rotvec as_matrix) ws)
                (spec_position from_rotvec as_matrix v) 1) as [l' E].
    rewrite E. eexists. split; [reflexivity |].
    intros k Hk.
    apply (greedy_from_bounds Rotation from_rotvec as_matrix) in Hk.
    rewrite length_map in Hk. simpl. lia.
Qed.

Lemma retained_fixpoint (vs : list pose) (min_dist : float) :
  retained from_rotvec as_matrix
    (Py.comprehension 0 vs (retained from_rotvec as_matrix vs min_dist))
    min_dist
  = seq 0 (length (retained from_rotvec as_matrix vs min_dist)).
Proof.
  destruct vs as [| v vs]; [reflexivity |].
  rewrite retained_cons. simpl Py.comprehension.
  rewrite comprehension_drop_lt by lia.
  rewrite retained_cons, comprehension_map, greedy_from_fixpoint.
  reflexivity.
Qed.

Lemma retained_length (vs : list pose) (min_dist : float) :
  length (retained from_rotvec as_matrix vs min_dist) <= length vs.
Proof.
  destruct vs as [| v vs]; [simpl; lia |].
  rewrite retained_cons. simpl.
  assert (H : forall ps last i,
             length (greedy_from min_dist last i ps) <= length ps).
  { induction ps as [| p ps IH]; intros last i; simpl; [lia |].
    destruct (PrimFloat.leb min_dist (spec_distance last p)); simpl;
      [specialize (IH p (S i)) | specialize (IH last (S i))]; lia. }
  specialize (H (map (spec_position from_rotvec as_matrix) vs)
                (spec_position from_rotvec as_matrix v) 1).
  rewrite length_map in H. lia.
Qed.

Lemma comprehension_retained_length {A : Type} (l : list A) (vs : list pose)
  (min_dist : float) :
  length l = length vs ->
  length (Py.comprehension 0 l (retained from_rotvec as_matrix vs min_dist))
  = length (retained from_rotvec as_matrix vs min_dist).
Proof.
  intros H.
  rewrite <- (length_map Some), comprehension_kept, H, kept_retained.
  apply length_map.
Qed.

(** X1. Only frame 0 survives exactly when no later frame passes the check
    against frame 0; the three outputs are then the first entries alone. *)
Theorem only_first_frame_iff (v : pose) (vs : list pose) (min_dist : float) :
  (retained from_rotvec as_matrix (v :: vs) min_dist = [0]
   <-> forall w, In w vs ->
         Np.ge (spec_distance (spec_position from_rotvec as_matrix v)
                              (spec_position from_rotvec as_matrix w))
               min_dist = false)
  /\ forall (o : ObjPts) objpts (i : ImgPts) imgpts (n : string) names,
      retained from_rotvec as_matrix (v :: vs) min_dist = [0] ->
      split_by_distance from_rotvec as_matrix
        (o :: objpts) (i :: imgpts) (n :: names) (v :: vs) min_dist
      = Ok ([o], [i], [n]).
Proof.
  split.
  - rewrite retained_cons. split.
    + intros E. injection E as E.
      intros w Hw.
      apply (proj1 (greedy_from_none min_dist _ _ 1) E).
      now apply in_map.
    + intros H. f_equal. apply greedy_from_none.
      intros p Hp. apply in_map_iff in Hp. destruct Hp as [w [<- Hw]].
      now apply H.
  - intros o objpts i imgpts n names E.
    rewrite split_by_distance_retained, E. simpl.
    rewrite !comprehension_none; [reflexivity | | |];
      intros k Hk; unfold Py.contains; simpl;
      destruct (Nat.eqb_spec k 0); try lia; reflexivity.
Qed.

(** X2. A NaN threshold (the parameter is a float and is not checked)
    leaves frame 0 only. *)
Theorem nan_min_dist_keeps_first (o : ObjPts) (objpts : list ObjPts)
  (i : ImgPts) (imgpts : list ImgPts) (n : string) (names : list string)
  (v : pose) (vs : list pose) (min_dist : float) :
  PrimFloat.is_nan min_dist = true ->
  split_by_distance from_rotvec as_matrix
    (o :: objpts) (i :: imgpts) (n :: names) (v :: vs) min_dist
  = Ok ([o], [i], [n]).
Proof.
  intros Hnan.
  assert (E : retained from_rotvec as_matrix (v :: vs) min_dist = [0]).
  { rewrite retained_cons. f_equal. apply greedy_from_none.
    intros p _. now apply leb_nan_l. }
  rewrite split_by_distance_retained, E. simpl.
  rewrite !comprehension_none; [reflexivity | | |];
    intros k Hk; unfold Py.contains; simpl;
    destruct (Nat.eqb_spec k 0); try lia; reflexivity.
Qed.

(** X3. A threshold below or equal to zero (negative values are not
    rejected) keeps every frame of equal-length lists, as long as no
    distance between consecutive positions is NaN. *)
Theorem nonpositive_min_dist_keeps_all (objpts : list ObjPts)
  (imgpts : list ImgPts) (names : list string) (vs : list pose)
  (min_dist : float) :
  PrimFloat.leb min_dist 0 = true ->
  length objpts = length vs ->
  length imgpts = length vs ->
  length names = length vs ->
  frames_not_nan from_rotvec as_matrix vs = true ->
  split_by_distance from_rotvec as_matrix objpts imgpts names vs min_dist
  = Ok (objpts, imgpts, names).
Proof.
  intros Hm Ho Hi Hn Hnan.
  assert (E : retained from_rotvec as_matrix vs min_dist
              = seq 0 (length vs)).
  { unfold frames_not_nan in Hnan. unfold retained, greedy_retained.
    rewrite <- (length_map (spec_position from_rotvec as_matrix) vs).
    destruct (map (spec_position from_rotvec as_matrix) vs) as [| p ps];
      [reflexivity |].
    simpl. f_equal. now apply greedy_from_all_nonpos. }
  rewrite split_by_distance_retained, E.
  now rewrite !comprehension_seq by lia.
Qed.

(** X4. Lists of unequal length raise nothing: the filter always returns,
    entries at positions at or beyond the number of poses never survive
    (the result is that of the lists cut to the number of poses), and no
    output is longer than its input or than the pose list. *)
Theorem length_mismatch_truncates (objpts : list ObjPts)
  (imgpts : list ImgPts) (names : list string) (vs : list pose)
  (min_dist : float) :
  exists nobj nimg nnames,
    split_by_distance from_rotvec as_matrix objpts imgpts names vs min_dist
    = Ok (nobj, nimg, nnames)
    /\ split_by_distance from_rotvec as_matrix
         (firstn (length vs) objpts) (firstn (length vs) imgpts)
         (firstn (length vs) names) vs min_dist
       = Ok (nobj, nimg, nnames)
    /\ length nobj <= Nat.min (length objpts) (length vs)
    /\ length nimg <= Nat.min (length imgpts) (length vs)
    /\ length nnames <= Nat.min (length names) (length vs).
Proof.
  pose proof (retained_bounds Rotation from_rotvec as_matrix vs min_dist)
    as Hb.
  rewrite !split_by_distance_retained.
  do 3 eexists. split; [reflexivity |].
  split.
  - now rewrite <- !(comprehension_cut (length vs)) by exact Hb.
  - repeat split;
      rewrite (comprehension_cut (length vs)) by exact Hb;
      (etransitivity; [apply comprehension_length |]);
      rewrite length_firstn; lia.
Qed.

(** X5. Filtering is idempotent when the poses are thinned alongside:
    running the filter again on its own output, with the pose list reduced
    by the same selection, returns that output unchanged. *)
Theorem filter_idempotent (objpts : list ObjPts) (imgpts : list ImgPts)
  (names : list string) (vs : list pose) (min_dist : float)
  (nobj : list ObjPts) (nimg : list ImgPts) (nnames : list string) :
  length objpts = length vs ->
  length imgpts = length vs ->
  length names = length vs ->
  split_by_distance from_rotvec as_matrix objpts imgpts names vs min_dist
  = Ok (nobj, nimg, nnames) ->
  split_by_distance from_rotvec as_matrix nobj nimg nnames
    (Py.comprehension 0 vs (retained from_rotvec as_matrix vs min_dist))
    min_dist
  = Ok (nobj, nimg, nnames).
Proof.
  intros Ho Hi Hn. rewrite split_by_distance_retained.
  intros E. injection E as <- <- <-.
  rewrite split_by_distance_retained, retained_fixpoint.
  now rewrite !comprehension_seq
    by (rewrite comprehension_retained_length by assumption; lia).
Qed.

(** X6. Whether a frame is kept depends on the frames up to it only:
    appending frames extends the retained indices by indices of appended
    frames, and the outputs by entries of the appended parts. *)
Theorem later_frames_do_not_matter (objpts o' : list ObjPts)
  (imgpts i' : list ImgPts) (names n' : list string) (vs ws : list pose)
  (min_dist : float) :
  length objpts = length vs ->
  length imgpts = length vs ->
  length names = length vs ->
  exists rest nobj nimg nnames to ti tn,
    retained from_rotvec as_matrix (vs ++ ws) min_dist
    = retained from_rotvec as_matrix vs min_dist ++ rest
    /\ (forall k, In k rest -> length vs <= k)
    /\ split_by_distance from_rotvec as_matrix objpts imgpts names vs min_dist
       = Ok (nobj, nimg, nnames)
    /\ split_by_distance from_rotvec as_matrix
         (objpts ++ o') (imgpts ++ i') (names ++ n') (vs ++ ws) min_dist
       = Ok (nobj ++ to, nimg ++ ti, nnames ++ tn).
Proof.
  intros Ho Hi Hn.
  destruct (retained_app vs ws min_dist) as [rest [E Hrest]].
  pose proof (retained_bounds Rotation from_rotvec as_matrix vs min_dist)
    as Hb.
  exists rest. rewrite !split_by_distance_retained, E.
  rewrite !(comprehension_app _ _ _ _ 0)
    by (simpl; intros k Hk;
        first [apply Hb in Hk | apply Hrest in Hk]; lia).
  do 6 eexists. split; [reflexivity |]. split; [exact Hrest |].
  split; reflexivity.
Qed.

End MoreDistance.

(** ** More on the stride filter and the dispatch *)

Section MoreStride.

Variable Rotation : Type.
Variable from_rotvec : vec3 -> Rotation.
Variable as_matrix : Rotation -> mat3.
Variables ObjPts ImgPts : Type.

Lemma on_stride_in_class (r N : Z) (i : nat) :
  (0 <= r < N)%Z -> on_stride r N i = in_class r N i.
Proof.
  intros Hr. unfold on_stride, in_class.
  destruct (Z.eqb_spec (Z.of_nat i mod N) r) as [E | E].
  - assert (Hle : (Z.of_nat i mod N <= Z.of_nat i)%Z)
      by (apply Z.mod_le; lia).
    pose proof (Z.div_mod (Z.of_nat i) N) as D.
    destruct (Z.leb_spec r (Z.of_nat i)); [| lia]. simpl.
    apply Z.eqb_eq.
    replace (Z.of_nat i - r)%Z with (Z.of_nat i / N * N)%Z by lia.
    apply Z.mod_mul. lia.
  - destruct (Z.leb_spec r (Z.of_nat i)); [| reflexivity]. simpl.
    apply Z.eqb_neq. intros Hm. apply E.
    pose proof (Z.div_mod (Z.of_nat i - r) N) as D.
    replace (Z.of_nat i) with (r + (Z.of_nat i - r) / N * N)%Z at 1 by lia.
    rewrite Z.mod_add by lia. apply Z.mod_small. lia.
Qed.

Lemma slice_positions_length (r N : Z) (L : nat) :
  (1 <= N)%Z -> (0 <= r)%Z ->
  length (Py.slice_positions r N (Z.of_nat L))
  = Z.to_nat ((Z.of_nat L - r + N - 1) / N).
Proof.
  intros HN Hr. rewrite slice_positions_forward by assumption.
  rewrite length_map, length_seq.
  destruct (Z.leb_spec (Z.of_nat L) r) as [H | H].
  - assert ((Z.of_nat L - r + N - 1) / N < 1)%Z
      by (apply Z.div_lt_upper_bound; lia).
    lia.
  - replace (Z.of_nat L - r + N - 1)%Z
      with (Z.of_nat L - r - 1 + 1 * N)%Z by lia.
    now rewrite Z.div_add by lia.
Qed.

Lemma slice_from_length {A : Type} (start step : Z) (l : list A)
  (out : list A) :
  Py.slice_from start step l = Ok out ->
  length out
  = length (Py.slice_positions start step (Z.of_nat (length l))).
Proof.
  unfold Py.slice_from.
  destruct (Z.eqb_spec step 0) as [| Hnz]; [discriminate |].
  intros E. injection E as <-.
  rewrite <- (length_map Some), items_in_range, length_map;
    [reflexivity |].
  intros p Hp. now apply (slice_positions_in_range start step).
Qed.

Lemma stride_from_skipn {A : Type} (r : Z) (l : list A) :
  (0 <= r)%Z ->
  forall i, stride_from r 1 i l = skipn (Z.to_nat r - i) l.
Proof.
  intros Hr. induction l as [| x l IH]; intros i; simpl.
  - now rewrite skipn_nil.
  - unfold on_stride. rewrite Z.mod_1_r. simpl.
    destruct (Z.leb_spec r (Z.of_nat i)) as [H | H]; simpl.
    + replace (Z.to_nat r - i) with 0 by lia. simpl. f_equal.
      rewrite IH. replace (Z.to_nat r - S i) with 0 by lia. reflexivity.
    + replace (Z.to_nat r - i) with (S (Z.to_nat r - S i)) by lia.
      simpl. apply IH.
Qed.

Lemma slice_positions_negative_start (r N : Z) (L : nat) :
  (r < 0)%Z -> (1 <= N)%Z ->
  Py.slice_positions r N (Z.of_nat L)
  = Py.slice_positions (Z.max 0 (Z.of_nat L + r)) N (Z.of_nat L).
Proof.
  intros Hr HN. unfold Py.slice_positions, Py.slice_indices.
  destruct (Z.ltb_spec N 0); [lia |].
  destruct (Z.ltb_spec r 0); [| lia].
  destruct (Z.ltb_spec (Z.max 0 (Z.of_nat L + r)) 0); [lia |].
  destruct (Z.ltb_spec (r + Z.of_nat L) 0);
    destruct (Z.leb_spec (Z.of_nat L) (Z.max 0 (Z.of_nat L + r)));
    try (replace (Z.max 0 (Z.of_nat L + r)) with 0%Z by lia);
    try (replace (Z.max 0 (Z.of_nat L + r)) with (r + Z.of_nat L)%Z by lia);
    try reflexivity; try lia.
  assert (L = 0%nat) by lia. subst L. reflexivity.
Qed.

Lemma rev_map_seq {A : Type} (f : nat -> A) (c : nat) :
  rev (map f (seq 0 c)) = map (fun k => f (c - 1 - k)) (seq 0 c).
Proof.
  induction c as [| c IH]; [reflexivity |].
  rewrite seq_S at 1. rewrite map_app, rev_app_distr. simpl rev. simpl app.
  rewrite IH. simpl seq. simpl map. f_equal.
  - f_equal. lia.
  - rewrite <- seq_shift, map_map. apply map_ext_in.
    intros k Hk. apply in_seq in Hk. f_equal. lia.
Qed.

(** Walking backwards from the last index visits the residue class of the
    last index, in decreasing order. *)
Lemma slice_positions_backward (r N : Z) (L : nat) :
  (1 <= N)%Z -> (r = -1 \/ Z.of_nat L - 1 <= r)%Z ->
  Py.slice_positions r (- N) (Z.of_nat L)
  = rev (Py.slice_positions ((Z.of_nat L - 1) mod N) N (Z.of_nat L)).
Proof.
  intros HN Hr.
  pose proof (Z.mod_pos_bound (Z.of_nat L - 1) N ltac:(lia)) as Hb.
  rewrite (slice_positions_forward ((Z.of_nat L - 1) mod N) N L) by lia.
  unfold Py.slice_positions, Py.slice_indices, Py.slice_length.
  destruct (Z.ltb_spec (- N) 0); [| lia].
  set (s := if (r <? 0)%Z
            then (if (r + Z.of_nat L <? 0)%Z then (-1)%Z
                  else (r + Z.of_nat L)%Z)
            else (if (Z.of_nat L <=? r)%Z then (Z.of_nat L - 1)%Z else r)).
  assert (Hs : s = (Z.of_nat L - 1)%Z).
  { subst s.
    destruct (Z.ltb_spec r 0);
      [destruct (Z.ltb_spec (r + Z.of_nat L) 0) |
       destruct (Z.leb_spec (Z.of_nat L) r)]; lia. }
  rewrite Hs. clear s Hs.
  destruct L as [| L].
  - simpl Z.of_nat in *.
    destruct (Z.ltb_spec (-1) (0 - 1)); [lia |].
    destruct (Z.leb_spec 0 ((0 - 1) mod N)); [reflexivity | lia].
  - replace (Z.of_nat (S L) - 1)%Z with (Z.of_nat L) in * by lia.
    destruct (Z.ltb_spec (-1) (Z.of_nat L)); [| lia].
    pose proof (Z.mod_le (Z.of_nat L) N ltac:(lia) ltac:(lia)) as Hle.
    destruct (Z.leb_spec (Z.of_nat (S L)) (Z.of_nat L mod N)); [lia |].
    pose proof (Z.div_mod (Z.of_nat L) N ltac:(lia)) as D.
    assert (Hq : (0 <= Z.of_nat L / N)%Z) by (apply Z.div_pos; lia).
    replace (Z.of_nat L - -1 - 1)%Z with (Z.of_nat L) by lia.
    replace (- - N)%Z with N by lia.
    replace ((Z.of_nat (S L) - Z.of_nat L mod N - 1) / N)%Z
      with (Z.of_nat L / N)%Z.
    2:{ replace (Z.of_nat (S L) - Z.of_nat L mod N - 1)%Z
          with (Z.of_nat L / N * N)%Z by lia.
        now rewrite Z.div_mul by lia. }
    rewrite rev_map_seq. apply map_ext_in. intros k Hk.
    apply in_seq in Hk.
    replace (Z.of_nat (Z.to_nat (Z.of_nat L / N + 1) - 1 - k))
      with (Z.of_nat L / N - Z.of_nat k)%Z by lia.
    lia.
Qed.

Lemma slice_positions_count (start step : Z) (L : nat) :
  step <> 0%Z ->
  length (Py.slice_positions start step (Z.of_nat L)) <= L.
Proof.
  intros Hstep. unfold Py.slice_positions, Py.slice_indices, Py.slice_length.
  destruct (Z.ltb_spec step 0) as [Hneg | Hpos].
  - set (s := if (start <? 0)%Z
              then (if (start + Z.of_nat L <? 0)%Z then (-1)%Z
                    else (start + Z.of_nat L)%Z)
              else (if (Z.of_nat L <=? start)%Z then (Z.of_nat L - 1)%Z
                    else start)).
    assert (Hs : (-1 <= s <= Z.of_nat L - 1)%Z).
    { subst s.
      destruct (Z.ltb_spec start 0);
        [destruct (Z.ltb_spec (start + Z.of_nat L) 0) |
         destruct (Z.leb_spec (Z.of_nat L) start)]; lia. }
    clearbody s. rewrite length_map, length_seq.
    destruct (Z.ltb_spec (-1) s) as [Hlt | Hge]; [| simpl; lia].
    replace (s - -1 - 1)%Z with s by lia.
    assert ((s / - step) <= s)%Z
      by (apply Z.div_le_upper_bound; nia).
    lia.
  - set (s := if (start <? 0)%Z
              then (if (start + Z.of_nat L <? 0)%Z then 0%Z
                    else (start + Z.of_nat L)%Z)
              else (if (Z.of_nat L <=? start)%Z then Z.of_nat L else start)).
    assert (Hs : (0 <= s <= Z.of_nat L)%Z).
    { subst s.
      destruct (Z.ltb_spec start 0);
        [destruct (Z.ltb_spec (start + Z.of_nat L) 0) |
         destruct (Z.leb_spec (Z.of_nat L) start)]; lia. }
    clearbody s. rewrite length_map, length_seq.
    destruct (Z.ltb_spec s (Z.of_nat L)) as [Hlt | Hge]; [| simpl; lia].
    assert (((Z.of_nat L - s - 1) / step) <= Z.of_nat L - s - 1)%Z
      by (apply Z.div_le_upper_bound; nia).
    lia.
Qed.

(** X7. With [0 <= residue < reduction] the stride filter keeps frame [i]
    exactly when [i mod reduction = residue]: each output is the list of
    the entries at those indices, in increasing order, so the residues
    [0 .. reduction - 1] split the frames into disjoint classes. *)
Theorem residue_selects_class (args : Namespace) (s : vars ObjPts ImgPts) :
  filterdist args = false ->
  filtertime args = true ->
  (0 <= residue args < reduction args)%Z ->
  exists s',
    filter_lists from_rotvec as_matrix args s = Ok s'
    /\ map Some (objpoints s')
       = map (nth_error (objpoints s))
           (filter (in_class (residue args) (reduction args))
                   (seq 0 (length (objpoints s))))
    /\ map Some (imgpoints s')
       = map (nth_error (imgpoints s))
           (filter (in_class (residue args) (reduction args))
                   (seq 0 (length (imgpoints s))))
    /\ map Some (ret_names s')
       = map (nth_error (ret_names s))
           (filter (in_class (residue args) (reduction args))
                   (seq 0 (length (ret_names s)))).
Proof.
  intros Hfd Hft Hr. unfold filter_lists. rewrite Hfd, Hft.
  rewrite !slice_from_stride by lia. simpl.
  eexists. split; [reflexivity |]. simpl.
  assert (H : forall (A : Type) (l : list A),
             map Some (stride_spec (residue args) (reduction args) l)
             = map (nth_error l)
                 (filter (in_class (residue args) (reduction args))
                         (seq 0 (length l)))).
  { intros A l. unfold stride_spec. rewrite stride_from_indices.
    rewrite (filter_ext _ _ (fun i => on_stride_in_class _ _ i Hr)).
    apply map_ext. intros k. now rewrite Nat.sub_0_r. }
  repeat split; apply H.
Qed.

(** X8. With [reduction = N >= 1] and [residue = r >= 0] each list of
    length [L] comes back with [ceil ((L - r) / N)] entries (none when
    [r >= L]): the length the script prints before calibrating. *)
Theorem stride_output_length (args : Namespace) (s : vars ObjPts ImgPts) :
  filterdist args = false ->
  filtertime args = true ->
  (1 <= reduction args)%Z ->
  (0 <= residue args)%Z ->
  exists s',
    filter_lists from_rotvec as_matrix args s = Ok s'
    /\ length (objpoints s')
       = Z.to_nat ((Z.of_nat (length (objpoints s)) - residue args
                    + reduction args - 1) / reduction args)
    /\ length (imgpoints s')
       = Z.to_nat ((Z.of_nat (length (imgpoints s)) - residue args
                    + reduction args - 1) / reduction args)
    /\ length (ret_names s')
       = Z.to_nat ((Z.of_nat (length (ret_names s)) - residue args
                    + reduction args - 1) / reduction args)
    /\ ((Z.of_nat (length (ret_names s)) <= residue args)%Z ->
        ret_names s' = []).
Proof.
  intros Hfd Hft HN Hr. unfold filter_lists. rewrite Hfd, Hft.
  assert (H : forall (A : Type) (l : list A),
             exists out,
               Py.slice_from (residue args) (reduction args) l = Ok out
               /\ length out
                  = Z.to_nat ((Z.of_nat (length l) - residue args
                               + reduction args - 1) / reduction args)).
  { intros A l. rewrite slice_from_stride by assumption.
    eexists. split; [reflexivity |].
    rewrite <- slice_positions_length by assumption.
    apply slice_from_length. now apply slice_from_stride. }
  destruct (H _ (objpoints s)) as [o [Eo Lo]].
  destruct (H _ (imgpoints s)) as [i [Ei Li]].
  destruct (H _ (ret_names s)) as [n [En Ln]].
  rewrite Eo, Ei, En. simpl. eexists. split; [reflexivity |]. simpl.
  repeat split; try assumption.
  intros Hle. apply length_zero_iff_nil. rewrite Ln.
  assert ((Z.of_nat (length (ret_names s)) - residue args
           + reduction args - 1) / reduction args < 1)%Z
    by (apply Z.div_lt_upper_bound; lia).
  lia.
Qed.

(** X9. With [reduction = 1] the stride filter only drops the first
    [residue] frames. *)
Theorem unit_stride_drops_prefix (args : Namespace)
  (s : vars ObjPts ImgPts) :
  filterdist args = false ->
  filtertime args = true ->
  reduction args = 1%Z ->
  (0 <= residue args)%Z ->
  filter_lists from_rotvec as_matrix args s
  = Ok (mkVars (pFile s)
          (skipn (Z.to_nat (residue args)) (objpoints s))
          (skipn (Z.to_nat (residue args)) (imgpoints s))
          (skipn (Z.to_nat (residue args)) (ret_names s))
          (vecs s)).
Proof.
  intros Hfd Hft HN Hr. unfold filter_lists. rewrite Hfd, Hft, HN.
  rewrite !slice_from_stride by lia. simpl. unfold stride_spec.
  rewrite !stride_from_skipn by assumption.
  now rewrite Nat.sub_0_r.
Qed.

(** X10. A negative [residue] is not rejected: it counts from the end of
    each list, so the filter starts at index [len + residue] (at 0 when
    that is negative). *)
Theorem negative_residue_counts_from_end (args : Namespace)
  (s : vars ObjPts ImgPts) :
  filterdist args = false ->
  filtertime args = true ->
  (1 <= reduction args)%Z ->
  (residue args < 0)%Z ->
  filter_lists from_rotvec as_matrix args s
  = Ok (mkVars (pFile s)
          (stride_spec (Z.max 0 (Z.of_nat (length (objpoints s))
                                 + residue args))
                       (reduction args) (objpoints s))
          (stride_spec (Z.max 0 (Z.of_nat (length (imgpoints s))
                                 + residue args))
                       (reduction args) (imgpoints s))
          (stride_spec (Z.max 0 (Z.of_nat (length (ret_names s))
                                 + residue args))
                       (reduction args) (ret_names s))
          (vecs s)).
Proof.
  intros Hfd Hft HN Hr. unfold filter_lists. rewrite Hfd, Hft.
  assert (H : forall (A : Type) (l : list A),
             Py.slice_from (residue args) (reduction args) l
             = Ok (stride_spec (Z.max 0 (Z.of_nat (length l) + residue args))
                               (reduction args) l)).
  { intros A l. rewrite <- slice_from_stride by lia.
    unfold Py.slice_from.
    now rewrite slice_positions_negative_start by assumption. }
  now rewrite !H.
Qed.

(** X11. A negative [reduction] is not rejected either: with
    [reduction = - N] and [residue = -1],
    each list comes back as the reverse of the forward stride through the
    residue class of its last index; for [N = 1] the list is reversed. *)
Theorem negative_reduction_reverses (args : Namespace)
  (s : vars ObjPts ImgPts) (N : Z) :
  filterdist args = false ->
  filtertime args = true ->
  (1 <= N)%Z ->
  reduction args = (- N)%Z ->
  residue args = (-1)%Z ->
  filter_lists from_rotvec as_matrix args s
  = Ok (mkVars (pFile s)
          (rev (stride_spec ((Z.of_nat (length (objpoints s)) - 1) mod N)
                            N (objpoints s)))
          (rev (stride_spec ((Z.of_nat (length (imgpoints s)) - 1) mod N)
                            N (imgpoints s)))
          (rev (stride_spec ((Z.of_nat (length (ret_names s)) - 1) mod N)
                            N (ret_names s)))
          (vecs s))
  /\ (N = 1%Z ->
      filter_lists from_rotvec as_matrix args s
      = Ok (mkVars (pFile s) (rev (objpoints s)) (rev (imgpoints s))
              (rev (ret_names s)) (vecs s))).
Proof.
  intros Hfd Hft HN HR Hr.
  assert (H : forall (A : Type) (l : list A),
             Py.slice_from (residue args) (reduction args) l
             = Ok (rev (stride_spec ((Z.of_nat (length l) - 1) mod N) N l))).
  { intros A l.
    pose proof (Z.mod_pos_bound (Z.of_nat (length l) - 1) N ltac:(lia))
      as Hb.
    pose proof (slice_from_stride ((Z.of_nat (length l) - 1) mod N) N l
                  HN ltac:(lia)) as F.
    unfold Py.slice_from in *. rewrite HR, Hr.
    destruct (Z.eqb_spec (- N) 0); [lia |].
    destruct (Z.eqb_spec N 0); [lia |].
    injection F as F. rewrite <- F. f_equal.
    apply map_Some_inj. rewrite map_rev.
    rewrite !items_in_range.
    - rewrite slice_positions_backward by lia. now rewrite map_rev.
    - intros p Hp. eapply slice_positions_in_range; [| exact Hp]. lia.
    - intros p Hp. eapply slice_positions_in_range; [| exact Hp]. lia. }
  assert (E : filter_lists from_rotvec as_matrix args s
              = Ok (mkVars (pFile s)
                      (rev (stride_spec
                              ((Z.of_nat (length (objpoints s)) - 1) mod N)
                              N (objpoints s)))
                      (rev (stride_spec
                              ((Z.of_nat (length (imgpoints s)) - 1) mod N)
                              N (imgpoints s)))
                      (rev (stride_spec
                              ((Z.of_nat (length (ret_names s)) - 1) mod N)
                              N (ret_names s)))
                      (vecs s))).
  { unfold filter_lists. rewrite Hfd, Hft. now rewrite !H. }
  split; [exact E |].
  intros ->. rewrite E. rewrite !Z.mod_1_r. unfold stride_spec.
  now rewrite !stride_from_identity.
Qed.

(** X12. The filter step raises in one situation only: the stride filter
    runs (no [filterdist], [filtertime] set) with [reduction = 0]; the
    exception is then [ValueError], whatever the lists hold. *)
Theorem filter_raises_iff (args : Namespace) (s : vars ObjPts ImgPts) :
  ((exists e, filter_lists from_rotvec as_matrix args s = Raise e)
   <-> filterdist args = false /\ filtertime args = true
       /\ reduction args = 0%Z)
  /\ forall e, filter_lists from_rotvec as_matrix args s = Raise e ->
               e = ValueError.
Proof.
  unfold filter_lists.
  destruct (filterdist args).
  - rewrite split_by_distance_retained. simpl.
    split; [split; [intros [e E]; discriminate | intros [E _]; discriminate]
           | intros e E; discriminate].
  - destruct (filtertime args).
    + unfold Py.slice_from.
      destruct (Z.eqb_spec (reduction args) 0) as [Hz | Hnz]; simpl.
      * split; [split; [tauto | intros _; now exists ValueError]
               | intros e E; now injection E as <-].
      * split; [split; [intros [e E]; discriminate | intros [_ [_ E]]; contradiction]
               | intros e E; discriminate].
    + split; [split; [intros [e E]; discriminate | intros [_ [E _]]; discriminate]
             | intros e E; discriminate].
Qed.

(** X13. Whichever policy runs, lists of one length come back with one
    length, at most the length they had: the calibration always receives
    as many image-point sets and names as object-point sets. *)
Theorem outputs_have_one_length (args : Namespace)
  (s s' : vars ObjPts ImgPts) :
  length (objpoints s) = length (imgpoints s) ->
  length (imgpoints s) = length (ret_names s) ->
  filter_lists from_rotvec as_matrix args s = Ok s' ->
  length (objpoints s') = length (imgpoints s')
  /\ length (imgpoints s') = length (ret_names s')
  /\ length (ret_names s') <= length (ret_names s).
Proof.
  intros Hoi Hin. unfold filter_lists.
  destruct (filterdist args).
  - rewrite split_by_distance_retained. simpl. intros E. injection E as <-.
    simpl.
    assert (H : forall (A : Type) (l : list A) keep,
               length (Py.comprehension 0 l keep)
               = length (Py.kept (length l) keep)).
    { intros A l keep.
      now rewrite <- (length_map Some), comprehension_kept, length_map. }
    rewrite !H, Hoi, Hin. repeat split.
    rewrite <- H. apply comprehension_length.
  - destruct (filtertime args).
    + destruct (Py.slice_from (residue args) (reduction args) (objpoints s))
        as [o | e] eqn:Eo; [| discriminate].
      destruct (Py.slice_from (residue args) (reduction args) (imgpoints s))
        as [i | e] eqn:Ei; [| discriminate].
      destruct (Py.slice_from (residue args) (reduction args) (ret_names s))
        as [n | e] eqn:En; [| discriminate].
      simpl. intros E. injection E as <-. simpl.
      rewrite (slice_from_length _ _ _ _ Eo), (slice_from_length _ _ _ _ Ei),
        (slice_from_length _ _ _ _ En), Hoi, Hin.
      repeat split.
      unfold Py.slice_from in En.
      destruct (Z.eqb_spec (reduction args) 0) as [| Hnz]; [discriminate |].
      apply (slice_positions_count _ _ _ Hnz).
    + intros E. injection E as <-. rewrite Hoi, Hin. repeat split. lia.
Qed.

End MoreStride.

(** ** File names and the loaded record *)

Lemma substring_prefix (s t : string) :
  substring 0 (String.length s) (s ++ t) = s.
Proof.
  induction s as [| c s IH]; simpl.
  - now destruct t.
  - now rewrite IH.
Qed.

Lemma string_length_append (s t : string) :
  String.length (s ++ t) = String.length s + String.length t.
Proof.
  induction s as [| c s IH]; simpl; [reflexivity | now rewrite IH].
Qed.

Lemma substring_zero (s : string) : substring 0 0 s = ""%string.
Proof. now destruct s. Qed.

(** X14. The results file is named after the input name without its last
    14 characters: inputs that differ in those characters only are written
    to the same file. *)
Theorem results_path_drops_suffix (args : Namespace) (base suffix : string) :
  file args = (base ++ suffix)%string ->
  String.length suffix = 14 ->
  results_path args = ("./results/" ++ base ++ ".yml")%string.
Proof.
  intros Hf Hs. unfold results_path, str_slice_to. rewrite Hf.
  rewrite string_length_append, Hs.
  destruct (Z.ltb_spec (-14) 0); [| lia].
  destruct (Z.ltb_spec (-14 + Z.of_nat (String.length base + 14)) 0); [lia |].
  replace (Z.to_nat (-14 + Z.of_nat (String.length base + 14)))
    with (String.length base) by lia.
  now rewrite substring_prefix.
Qed.

(** X15. An input name of 14 characters or fewer leaves nothing of itself
    in the results path: every such run writes [./results/.yml]. *)
Theorem short_name_results_path (args : Namespace) :
  String.length (file args) <= 14 ->
  results_path args = "./results/.yml"%string.
Proof.
  intros H. unfold results_path, str_slice_to.
  destruct (Z.ltb_spec (-14) 0); [| lia].
  destruct (Z.ltb_spec (-14 + Z.of_nat (String.length (file args))) 0).
  - now rewrite substring_zero.
  - replace (Z.to_nat (-14 + Z.of_nat (String.length (file args))))
      with 0 by lia.
    now rewrite substring_zero.
Qed.

(** X16. Unpacking succeeds exactly when the record holds all eight keys,
    whether the run uses them or not; otherwise it raises [KeyError] for
    the first missing key in the order of the script. *)
Theorem unpack_needs_all_keys {V : Type} (pFile : string -> option V) :
  ((exists u, unpack_record pFile = inl u)
   <-> forall key, In key required_keys -> pFile key <> None)
  /\ forall key,
      unpack_record pFile = inr (KeyError key) ->
      exists before after,
        required_keys = before ++ key :: after
        /\ pFile key = None
        /\ forall k, In k before -> pFile k <> None.
Proof.
  unfold unpack_record, getitem, required_keys.
  destruct (pFile "3D_points"%string) eqn:E1; simpl.
  2:{ split; [split; [intros [u E]; discriminate |
                      intros H; exfalso; apply (H "3D_points"%string);
                      [simpl; tauto | assumption]] |].
      intros key E. injection E as <-.
      exists [], (tl required_keys). repeat split; [assumption |].
      intros k []. }
  destruct (pFile "2D_points"%string) eqn:E2; simpl.
  2:{ split; [split; [intros [u E]; discriminate |
                      intros H; exfalso; apply (H "2D_points"%string);
                      [simpl; tauto | assumption]] |].
      intros key E. injection E as <-.
      exists (firstn 1 required_keys), (skipn 2 required_keys).
      repeat split; [assumption |].
      simpl. intros k [<- | []]; congruence. }
  destruct (pFile "name_points"%string) eqn:E3; simpl.
  2:{ split; [split; [intros [u E]; discriminate |
                      intros H; exfalso; apply (H "name_points"%string);
                      [simpl; tauto | assumption]] |].
      intros key E. injection E as <-.
      exists (firstn 2 required_keys), (skipn 3 required_keys).
      repeat split; [assumption |].
      simpl. intros k [<- | [<- | []]]; congruence. }
  destruct (pFile "init_mtx"%string) eqn:E4; simpl.
  2:{ split; [split; [intros [u E]; discriminate |
                      intros H; exfalso; apply (H "init_mtx"%string);
                      [simpl; tauto | assumption]] |].
      intros key E. injection E as <-.
      exists (firstn 3 required_keys), (skipn 4 required_keys).
      repeat split; [assumption |].
      simpl. intros k [<- | [<- | [<- | []]]]; congruence. }
  destruct (pFile "init_dist"%string) eqn:E5; simpl.
  2:{ split; [split; [intros [u E]; discriminate |
                      intros H; exfalso; apply (H "init_dist"%string);
                      [simpl; tauto | assumption]] |].
      intros key E. injection E as <-.
      exists (firstn 4 required_keys), (skipn 5 required_keys).
      repeat split; [assumption |].
      simpl. intros k [<- | [<- | [<- | [<- | []]]]]; congruence. }
  destruct (pFile "img_shape"%string) eqn:E6; simpl.
  2:{ split; [split; [intros [u E]; discriminate |
                      intros H; exfalso; apply (H "img_shape"%string);
                      [simpl; tauto | assumption]] |].
      intros key E. injection E as <-.
      exists (firstn 5 required_keys), (skipn 6 required_keys).
      repeat split; [assumption |].
      simpl. intros k [<- | [<- | [<- | [<- | [<- | []]]]]]; congruence. }
  destruct (pFile "init_calibfile"%string) eqn:E7; simpl.
  2:{ split; [split; [intros [u E]; discriminate |
                      intros H; exfalso; apply (H "init_calibfile"%string);
                      [simpl; tauto | assumption]] |].
      intros key E. injection E as <-.
      exists (firstn 6 required_keys), (skipn 7 required_keys).
      repeat split; [assumption |].
      simpl.
      intros k [<- | [<- | [<- | [<- | [<- | [<- | []]]]]]]; congruence. }
  destruct (pFile "rt_vectors"%string) eqn:E8; simpl.
  2:{ split; [split; [intros [u E]; discriminate |
                      intros H; exfalso; apply (H "rt_vectors"%string);
                      [simpl; tauto | assumption]] |].
      intros key E. injection E as <-.
      exists (firstn 7 required_keys), (skipn 8 required_keys).
      repeat split; [assumption |].
      simpl.
      intros k [<- | [<- | [<- | [<- | [<- | [<- | [<- | []]]]]]]];
        congruence. }
  split; [| intros key E; discriminate].
  split; [| intros _; eexists; reflexivity].
  intros _ key Hin. simpl in Hin.
  repeat (destruct Hin as [<- | Hin]; [congruence |]). contradiction.
Qed.

(** ** Sample runs of the further properties *)

Lemma nan_min_dist_keeps_first_witness :
  split_by_distance from_rotvec_zero as_matrix_id
    [10; 11; 12] [20; 21; 22] ["a"; "b"; "c"]%string three_frames
    PrimFloat.nan
  = Ok ([10], [20], ["a"]%string).
Proof.
  exact (nan_min_dist_keeps_first mat3 from_rotvec_zero as_matrix_id nat nat
           10 [11; 12] 20 [21; 22] "a"%string ["b"; "c"]%string
           (along_x 0) [along_x 0x1.999999999999ap-5; along_x 1]%float
           PrimFloat.nan eq_refl).
Defined.

Lemma nonpositive_min_dist_keeps_all_witness :
  split_by_distance from_rotvec_zero as_matrix_id
    [10; 11; 12] [20; 21; 22] ["a"; "b"; "c"]%string three_frames (-1)%float
  = Ok ([10; 11; 12], [20; 21; 22], ["a"; "b"; "c"]%string).
Proof.
  apply (nonpositive_min_dist_keeps_all mat3 from_rotvec_zero as_matrix_id
           nat nat); reflexivity.
Defined.

Lemma filter_idempotent_witness :
  split_by_distance from_rotvec_zero as_matrix_id
    [10; 12] [20; 22] ["a"; "c"]%string
    (Py.comprehension 0 three_frames
       (retained from_rotvec_zero as_matrix_id three_frames 0x1p-1))
    0x1p-1
  = Ok ([10; 12], [20; 22], ["a"; "c"]%string).
Proof.
  apply (filter_idempotent mat3 from_rotvec_zero as_matrix_id nat nat
           [10; 11; 12] [20; 21; 22] ["a"; "b"; "c"]%string three_frames
           0x1p-1);
    [reflexivity | reflexivity | reflexivity | vm_compute; reflexivity].
Defined.

Lemma later_frames_do_not_matter_witness :
  exists rest nobj nimg nnames to ti tn,
    retained from_rotvec_zero as_matrix_id (two_frames ++ late_frame) 0x1p-1
    = retained from_rotvec_zero as_matrix_id two_frames 0x1p-1 ++ rest
    /\ (forall k, In k rest -> length two_frames <= k)
    /\ split_by_distance from_rotvec_zero as_matrix_id
         [10; 11] [20; 21] ["a"; "b"]%string two_frames 0x1p-1
       = Ok (nobj, nimg, nnames)
    /\ split_by_distance from_rotvec_zero as_matrix_id
         ([10; 11] ++ [12]) ([20; 21] ++ [22])
         (["a"; "b"]%string ++ ["c"]%string) (two_frames ++ late_frame)
         0x1p-1
       = Ok (nobj ++ to, nimg ++ ti, nnames ++ tn).
Proof.
  apply (later_frames_do_not_matter mat3 from_rotvec_zero as_matrix_id
           nat nat [10; 11] [12] [20; 21] [22]
           ["a"; "b"]%string ["c"]%string two_frames late_frame 0x1p-1);
    reflexivity.
Defined.

Lemma residue_selects_class_witness :
  exists s',
    filter_lists from_rotvec_zero as_matrix_id (args_stride 2 1)
      (unpack five_pfile) = Ok s'
    /\ map Some (objpoints s')
       = map (nth_error [10; 11; 12; 13; 14]) [1; 3]
    /\ map Some (imgpoints s')
       = map (nth_error [20; 21; 22; 23; 24]) [1; 3]
    /\ map Some (ret_names s') = map (nth_error five_names) [1; 3].
Proof.
  apply (residue_selects_class mat3 from_rotvec_zero as_matrix_id nat nat
           (args_stride 2 1) (unpack five_pfile));
    [reflexivity | reflexivity | simpl; lia].
Defined.

Lemma stride_output_length_witness :
  exists s',
    filter_lists from_rotvec_zero as_matrix_id (args_stride 2 1)
      (unpack five_pfile) = Ok s'
    /\ length (objpoints s') = 2
    /\ length (imgpoints s') = 2
    /\ length (ret_names s') = 2
    /\ ((5 <= 1)%Z -> ret_names s' = []).
Proof.
  apply (stride_output_length mat3 from_rotvec_zero as_matrix_id nat nat
           (args_stride 2 1) (unpack five_pfile));
    [reflexivity | reflexivity | simpl; lia | simpl; lia].
Defined.

Lemma unit_stride_drops_prefix_witness :
  filter_lists from_rotvec_zero as_matrix_id (args_stride 1 2)
    (unpack five_pfile)
  = Ok (mkVars five_pfile [12; 13; 14] [22; 23; 24]
          ["f2"; "f3"; "f4"]%string (rt_vectors five_pfile)).
Proof.
  apply (unit_stride_drops_prefix mat3 from_rotvec_zero as_matrix_id nat nat
           (args_stride 1 2) (unpack five_pfile));
    [reflexivity | reflexivity | reflexivity | simpl; lia].
Defined.

Lemma negative_residue_counts_from_end_witness :
  filter_lists from_rotvec_zero as_matrix_id (args_stride 2 (-3))
    (unpack five_pfile)
  = Ok (mkVars five_pfile [12; 14] [22; 24] ["f2"; "f4"]%string
          (rt_vectors five_pfile)).
Proof.
  apply (negative_residue_counts_from_end mat3 from_rotvec_zero as_matrix_id
           nat nat (args_stride 2 (-3)) (unpack five_pfile));
    [reflexivity | reflexivity | simpl; lia | simpl; lia].
Defined.

Lemma negative_reduction_reverses_witness :
  filter_lists from_rotvec_zero as_matrix_id (args_stride (-2) (-1))
    (unpack five_pfile)
  = Ok (mkVars five_pfile [14; 12; 10] [24; 22; 20]
          ["f4"; "f2"; "f0"]%string (rt_vectors five_pfile)).
Proof.
  apply (proj1 (negative_reduction_reverses mat3 from_rotvec_zero
                  as_matrix_id nat nat (args_stride (-2) (-1))
                  (unpack five_pfile) 2 eq_refl eq_refl
                  ltac:(lia) eq_refl eq_refl)).
Defined.

Lemma outputs_have_one_length_witness :
  length [10; 12] = length [20; 22]
  /\ length [20; 22] = length ["a"; "c"]%string
  /\ length ["a"; "c"]%string <= length ["a"; "b"; "c"]%string.
Proof.
  apply (outputs_have_one_length mat3 from_rotvec_zero as_matrix_id nat nat
           (args_distance 0x1p-1) (unpack three_pfile)
           (mkVars three_pfile [10; 12] [20; 22] ["a"; "c"]%string
              three_frames));
    [reflexivity | reflexivity | vm_compute; reflexivity].
Defined.

Lemma results_path_drops_suffix_witness :
  results_path (args_named "cam1_vidpoints_001")
  = "./results/cam1.yml"%string.
Proof.
  apply (results_path_drops_suffix (args_named "cam1_vidpoints_001")
           "cam1" "_vidpoints_001");
    reflexivity.
Defined.

Lemma short_name_results_path_witness :
  results_path (args_named "run") = "./results/.yml"%string.
Proof.
  apply (short_name_results_path (args_named "run")). simpl. lia.
Defined.

(** * The filters over a store of Python objects

    Lists are mutable objects that hold references; the arrays, names and
    poses they refer to are objects too. The filter is run on such a store
    to see which objects it writes. *)

Section Store.

Variable Rotation : Type.
Variable from_rotvec : vec3 -> Rotation.
Variable as_matrix : Rotation -> mat3.
Variables ObjPts ImgPts : Type.

(** An item of a list: a reference to an object, or an integer. *)
Inductive value : Type :=
| Ref (a : nat)
| Int (n : nat).

Inductive object : Type :=
| OList (items : list value)
| OPoints3D (a : ObjPts)
| OPoints2D (a : ImgPts)
| OStr (s : string)
| OPose (v : pose).

(** The store: the object at address [a] is the [a]-th entry. *)
Definition store : Type := list object.

(** Exceptions of operations on objects of the wrong kind. *)
Inductive fault : Type :=
| TypeError
| IndexError.

Inductive outcome (A : Type) : Type :=
| Done (a : A)
| Raised (e : exn)
| Fault (f : fault).

Arguments Done {A} a.
Arguments Raised {A} e.
Arguments Fault {A} f.

Definition and_next {A B : Type} (c : outcome A) (k : A -> outcome B)
  : outcome B :=
  match c with
  | Done a => k a
  | Raised e => Raised e
  | Fault f => Fault f
  end.

Notation "x <~ c ;; k" := (and_next c (fun x => k))
  (at level 61, c at next level, right associativity).

Definition deref (h : store) (a : nat) : option object := nth_error h a.

(** A new object gets the next free address. *)
Definition alloc (h : store) (o : object) : store * nat :=
  (h ++ [o], length h).

(** The store with the object at [a] replaced. *)
Fixpoint update (h : store) (a : nat) (o : object) : store :=
  match h, a with
  | [], _ => []
  | _ :: h', 0 => o :: h'
  | x :: h', S a' => x :: update h' a' o
  end.

(** The items of the list object at [l]. *)
Definition list_items (h : store) (l : nat) : outcome (list value) :=
  match deref h l with
  | Some (OList items) => Done items
  | _ => Fault TypeError
  end.

(** [l.append(v)]: the list object at [l] is changed in place. *)
Definition append (h : store) (l : nat) (v : value) : outcome store :=
  items <~ list_items h l ;;
  Done (update h l (OList (items ++ [v]))).

(** [vecs[i]], which must be a pose. *)
Definition pose_at (h : store) (vecs i : nat) : outcome pose :=
  items <~ list_items h vecs ;;
  match nth_error items i with
  | None => Fault IndexError
  | Some (Int _) => Fault TypeError
  | Some (Ref a) =>
      match deref h a with
      | Some (OPose v) => Done v
      | _ => Fault TypeError
      end
  end.

(** One pass of the loop; [arg_split] is the address of the list the
    function created. *)
Definition loop_body_h (min_dist : float) (vecs arg_split i : nat)
  (st : option vec3 * store) : outcome (option vec3 * store) :=
  let '(tmat_old, h) := st in
  v <~ pose_at h vecs i ;;
  let rvec := fst v in
  let tvec := snd v in
  let rmat := from_rotvec (Np.reshape3 rvec) in
  let tmat := Np.dot (as_matrix rmat) tvec in
  if Nat.eqb i 0 then
    h' <~ append h arg_split (Int i) ;;
    Done (Some tmat, h')
  else
    match tmat_old with
    | None => Raised NameError
    | Some old =>
        let dtc := Np.linalg_norm (Np.sub old tmat) in
        if Np.ge dtc min_dist
        then h' <~ append h arg_split (Int i) ;;
             Done (Some tmat, h')
        else Done (tmat_old, h)
    end.

(** [for i in range(n)], from [i] on. *)
Fixpoint for_range_h (min_dist : float) (vecs arg_split i n : nat)
  (st : option vec3 * store) : outcome (option vec3 * store) :=
  match n with
  | 0 => Done st
  | S n' =>
      st' <~ loop_body_h min_dist vecs arg_split i st ;;
      for_range_h min_dist vecs arg_split (S i) n' st'
  end.

(** The integers among the items of a list. *)
Definition ints (items : list value) : list nat :=
  flat_map (fun v => match v with Int k => [k] | Ref _ => [] end) items.

(** [[l[i] for i in range(len(l)) if i in arg_split]]: a new list object
    holding the selected items themselves. *)
Definition comprehension_h (h : store) (l arg_split : nat)
  : outcome (store * nat) :=
  items <~ list_items h l ;;
  keep <~ list_items h arg_split ;;
  Done (alloc h (OList (Py.comprehension 0 items (ints keep)))).

Definition split_by_distance_h (h : store) (objpts imgpts names vecs : nat)
  (min_dist : float) : outcome (store * (nat * nat * nat)) :=
  let '(h0, arg_split) := alloc h (OList []) in
  vitems <~ list_items h0 vecs ;;
  st <~ for_range_h min_dist vecs arg_split 0 (length vitems) (None, h0) ;;
  r1 <~ comprehension_h (snd st) objpts arg_split ;;
  r2 <~ comprehension_h (fst r1) imgpts arg_split ;;
  r3 <~ comprehension_h (fst r2) names arg_split ;;
  Done (fst r3, (snd r1, snd r2, snd r3)).

(** [l[start::step]]: a new list object. *)
Definition slice_h (h : store) (l : nat) (start step : Z)
  : outcome (store * nat) :=
  items <~ list_items h l ;;
  match Py.slice_from start step items with
  | Ok out => Done (alloc h (OList out))
  | Raise e => Raised e
  end.

(** The script's variables: the addresses they are bound to. *)
Record bindings : Type := mkBindings {
  b_objpoints : nat;
  b_imgpoints : nat;
  b_ret_names : nat;
  b_vecs : nat
}.

(** "Filter lists if required", rebinding the three variables. *)
Definition filter_lists_h (args : Namespace) (h : store) (b : bindings)
  : outcome (store * bindings) :=
  if filterdist args then
    r <~ split_by_distance_h h (b_objpoints b) (b_imgpoints b)
                             (b_ret_names b) (b_vecs b) (mindist args) ;;
    let '(h', (o, i, n)) := r in
    Done (h', mkBindings o i n (b_vecs b))
  else if filtertime args then
    r1 <~ slice_h h (b_objpoints b) (residue args) (reduction args) ;;
    r2 <~ slice_h (fst r1) (b_imgpoints b) (residue args) (reduction args) ;;
    r3 <~ slice_h (fst r2) (b_ret_names b) (residue args) (reduction args) ;;
    Done (fst r3, mkBindings (snd r1) (snd r2) (snd r3) (b_vecs b))
  else Done (h, b).

(** *** Reading typed lists out of the store *)

Definition as_points3D (o : object) : option ObjPts :=
  match o with OPoints3D a => Some a | _ => None end.

Definition as_points2D (o : object) : option ImgPts :=
  match o with OPoints2D a => Some a | _ => None end.

Definition as_str (o : object) : option string :=
  match o with OStr s => Some s | _ => None end.

Definition as_pose (o : object) : option pose :=
  match o with OPose v => Some v | _ => None end.

Definition read_item {A : Type} (h : store) (proj : object -> option A)
  (v : value) : option A :=
  match v with
  | Ref a => match deref h a with
             | Some o => proj o
             | None => None
             end
  | Int _ => None
  end.

Fixpoint read_items {A : Type} (h : store) (proj : object -> option A)
  (items : list value) : option (list A) :=
  match items with
  | [] => Some []
  | v :: items' =>
      match read_item h proj v, read_items h proj items' with
      | Some x, Some xs => Some (x :: xs)
      | _, _ => None
      end
  end.

(** The list at [l] read as a list of [A]; [None] when an item is of
    another kind. *)
Definition read_list {A : Type} (h : store) (proj : object -> option A)
  (l : nat) : option (list A) :=
  match list_items h l with
  | Done items => read_items h proj items
  | _ => None
  end.

(** ** Old objects under allocation and under the one in-place write *)

Lemma update_last (h : store) (x y : object) :
  update (h ++ [x]) (length h) y = h ++ [y].
Proof.
  induction h as [| z h IH]; simpl; [reflexivity | now rewrite IH].
Qed.

Lemma deref_old (h t : store) (a : nat) :
  a < length h -> deref (h ++ t) a = deref h a.
Proof. intros H. unfold deref. now apply nth_error_app1. Qed.

Lemma deref_bound (h : store) (a : nat) (o : object) :
  deref h a = Some o -> a < length h.
Proof. intros H. apply nth_error_Some. unfold deref in H. congruence. Qed.

Lemma list_items_bound (h : store) (l : nat) (items : list value) :
  list_items h l = Done items -> l < length h.
Proof.
  unfold list_items. destruct (deref h l) as [o |] eqn:E; [| discriminate].
  intros _. exact (deref_bound _ _ _ E).
Qed.

Lemma list_items_old (h t : store) (l : nat) (items : list value) :
  list_items h l = Done items -> list_items (h ++ t) l = Done items.
Proof.
  intros H. pose proof (list_items_bound _ _ _ H) as Hb.
  unfold list_items in *. now rewrite deref_old.
Qed.

Lemma list_items_new (h t : store) (items : list value) :
  list_items (h ++ OList items :: t) (length h) = Done items.
Proof.
  unfold list_items, deref.
  now rewrite nth_error_app2, Nat.sub_diag by lia.
Qed.

Lemma append_last (h : store) (items : list value) (v : value) :
  append (h ++ [OList items]) (length h) v
  = Done (h ++ [OList (items ++ [v])]).
Proof.
  unfold append. rewrite list_items_new. simpl. now rewrite update_last.
Qed.

Lemma ints_map_Int (R : list nat) : ints (map Int R) = R.
Proof.
  induction R as [| k R IH]; simpl; [reflexivity | now rewrite IH].
Qed.

(** ** Typed reading is stable under allocation and selection *)

Lemma read_item_old {A : Type} (proj : object -> option A) (h t : store)
  (v : value) (x : A) :
  read_item h proj v = Some x -> read_item (h ++ t) proj v = Some x.
Proof.
  destruct v as [a | k]; simpl; [| discriminate].
  destruct (deref h a) as [o |] eqn:E; [| discriminate].
  intros H. now rewrite deref_old, E by exact (deref_bound _ _ _ E).
Qed.

Lemma read_items_old {A : Type} (proj : object -> option A) (h t : store)
  (items : list value) :
  forall l, read_items h proj items = Some l ->
            read_items (h ++ t) proj items = Some l.
Proof.
  induction items as [| v items IH]; intros l; simpl; [trivial |].
  destruct (read_item h proj v) as [x |] eqn:Ex; [| discriminate].
  destruct (read_items h proj items) as [xs |] eqn:Exs; [| discriminate].
  intros E. now rewrite (read_item_old _ _ t _ _ Ex), (IH _ eq_refl).
Qed.

Lemma read_items_comprehension {A : Type} (proj : object -> option A)
  (h : store) (keep : list nat) (items : list value) :
  forall l i,
    read_items h proj items = Some l ->
    read_items h proj (Py.comprehension i items keep)
    = Some (Py.comprehension i l keep).
Proof.
  induction items as [| v items IH]; intros l i; simpl.
  - intros E. now injection E as <-.
  - destruct (read_item h proj v) as [x |] eqn:Ex; [| discriminate].
    destruct (read_items h proj items) as [xs |] eqn:Exs; [| discriminate].
    intros E. injection E as <-. simpl.
    destruct (Py.contains i keep); simpl.
    + now rewrite Ex, (IH xs (S i) eq_refl).
    + now apply IH.
Qed.

Lemma read_items_length {A : Type} (proj : object -> option A) (h : store)
  (items : list value) :
  forall l, read_items h proj items = Some l -> length items = length l.
Proof.
  induction items as [| v items IH]; intros l; simpl.
  - intros E. now injection E as <-.
  - destruct (read_item h proj v) as [x |]; [| discriminate].
    destruct (read_items h proj items) as [xs |]; [| discriminate].
    intros E. injection E as <-. simpl. f_equal. now apply IH.
Qed.

Lemma read_items_nth {A : Type} (proj : object -> option A) (h : store)
  (items : list value) :
  forall l i x,
    read_items h proj items = Some l ->
    nth_error l i = Some x ->
    exists v, nth_error items i = Some v /\ read_item h proj v = Some x.
Proof.
  induction items as [| v items IH]; intros l i x; simpl.
  - intros E. injection E as <-. destruct i; discriminate.
  - destruct (read_item h proj v) as [y |] eqn:Ey; [| discriminate].
    destruct (read_items h proj items) as [xs |] eqn:Exs; [| discriminate].
    intros E. injection E as <-. destruct i as [| i]; simpl.
    + intros E. injection E as <-. now exists v.
    + intros E. now apply (IH xs i x).
Qed.

Lemma pose_at_read (h t : store) (vecs i : nat) (vs : list pose) (v : pose) :
  read_list h as_pose vecs = Some vs ->
  nth_error vs i = Some v ->
  pose_at (h ++ t) vecs i = Done v.
Proof.
  unfold read_list, pose_at.
  destruct (list_items h vecs) as [items | |] eqn:El; try discriminate.
  intros Hr Hn. rewrite (list_items_old _ t _ _ El). simpl.
  destruct (read_items_nth _ _ _ _ _ _ Hr Hn) as [w [Hw Hx]].
  rewrite Hw. destruct w as [a | k]; simpl in Hx; [| discriminate].
  destruct (deref h a) as [o |] eqn:Ea; [| discriminate].
  rewrite deref_old, Ea by exact (deref_bound _ _ _ Ea).
  destruct o; simpl in Hx; try discriminate. now injection Hx as <-.
Qed.

(** ** The loop on the store follows the loop on values *)

Lemma for_range_h_sim (min_dist : float) (h : store) (vecs : nat)
  (vs : list pose) :
  read_list h as_pose vecs = Some vs ->
  forall rest pre t acc,
    vs = pre ++ rest ->
    for_range_h min_dist vecs (length h) (length pre) (length rest)
      (t, h ++ [OList (map Int acc)])
    = match for_range from_rotvec as_matrix min_dist (length pre) rest
              (mkLoop t acc) with
      | Ok st => Done (tmat_old st, h ++ [OList (map Int (arg_split st))])
      | Raise e => Raised e
      end.
Proof.
  intros Hr. induction rest as [| v rest IH]; intros pre t acc Hvs;
    [reflexivity |].
  assert (Hn : nth_error vs (length pre) = Some v)
    by (rewrite Hvs, nth_error_app2, Nat.sub_diag by lia; reflexivity).
  assert (Hnext : vs = (pre ++ [v]) ++ rest)
    by (now rewrite <- app_assoc).
  assert (Hlen : S (length pre) = length (pre ++ [v]))
    by (rewrite length_app; simpl; lia).
  cbn [for_range_h for_range length].
  unfold loop_body_h, loop_body.
  rewrite (pose_at_read h _ vecs _ vs v Hr Hn). cbn [and_next bind].
  destruct (Nat.eqb (length pre) 0).
  - rewrite append_last. cbn [and_next bind arg_split].
    rewrite <- map_last, Hlen. apply (IH (pre ++ [v]) _ _ Hnext).
  - cbn [tmat_old]. destruct t as [old |]; [| reflexivity].
    destruct (Np.ge (Np.linalg_norm
                       (Np.sub old
                          (Np.dot (as_matrix (from_rotvec
                                                (Np.reshape3 (fst v))))
                                  (snd v)))) min_dist).
    + rewrite append_last. cbn [and_next bind arg_split].
      rewrite <- map_last, Hlen. apply (IH (pre ++ [v]) _ _ Hnext).
    + cbn [and_next bind]. rewrite Hlen.
      apply (IH (pre ++ [v]) _ _ Hnext).
Qed.

(** The whole run, with the store it ends in written out: the old store,
    then the list [arg_split], then the three new lists. *)
Lemma split_by_distance_h_run (h : store) (objpts imgpts names vecs : nat)
  (io ii inn : list value) (vs : list pose) (min_dist : float) :
  list_items h objpts = Done io ->
  list_items h imgpts = Done ii ->
  list_items h names = Done inn ->
  read_list h as_pose vecs = Some vs ->
  split_by_distance_h h objpts imgpts names vecs min_dist
  = Done (h ++ [OList (map Int (retained from_rotvec as_matrix vs min_dist));
                OList (Py.comprehension 0 io
                         (retained from_rotvec as_matrix vs min_dist));
                OList (Py.comprehension 0 ii
                         (retained from_rotvec as_matrix vs min_dist));
                OList (Py.comprehension 0 inn
                         (retained from_rotvec as_matrix vs min_dist))],
           (length h + 1, length h + 2, length h + 3)).
Proof.
  intros Ho Hi Hn Hv.
  set (R := retained from_rotvec as_matrix vs min_dist).
  unfold split_by_distance_h, alloc.
  assert (Hvl : exists iv, list_items h vecs = Done iv
                           /\ length iv = length vs).
  { unfold read_list in Hv.
    destruct (list_items h vecs) as [iv | |]; try discriminate.
    exists iv. split; [reflexivity |].
    exact (read_items_length _ _ _ _ Hv). }
  destruct Hvl as [iv [Eiv Hlen]].
  rewrite (list_items_old _ [OList []] _ _ Eiv). cbn [and_next].
  rewrite Hlen.
  pose proof (for_range_h_sim min_dist h vecs vs Hv vs [] None []
                eq_refl) as Hsim.
  cbn [length map] in Hsim. unfold store in *. rewrite Hsim.
  destruct (for_range_retained Rotation from_rotvec as_matrix min_dist vs)
    as [st [Est ER]].
  rewrite Est, ER. fold R. cbn [and_next snd fst].
  unfold comprehension_h, alloc.
  rewrite (list_items_old _ [OList (map Int R)] _ _ Ho).
  rewrite (list_items_new h [] (map Int R)). cbn [and_next snd fst].
  rewrite ints_map_Int.
  rewrite <- !app_assoc. cbn [app].
  rewrite (list_items_old _ [OList (map Int R); _] _ _ Hi).
  rewrite (list_items_new h [_] (map Int R)). cbn [and_next snd fst].
  rewrite ints_map_Int.
  rewrite <- !app_assoc. cbn [app].
  rewrite (list_items_old _ [OList (map Int R); _; _] _ _ Hn).
  rewrite (list_items_new h [_; _] (map Int R)). cbn [and_next snd fst].
  rewrite ints_map_Int.
  rewrite <- !app_assoc. cbn [app].
  rewrite !length_app. cbn [length].
  repeat f_equal; lia.
Qed.

Lemma slice_h_run (h : store) (l : nat) (items : list value)
  (start step : Z) (r : store * nat) :
  list_items h l = Done items ->
  slice_h h l start step = Done r ->
  exists out, r = (h ++ [OList out], length h).
Proof.
  intros Hl. unfold slice_h. rewrite Hl. cbn [and_next].
  destruct (Py.slice_from start step items) as [out | e]; [| discriminate].
  intros E. injection E as <-. now exists out.
Qed.

(** C9. Run on a store that holds the four lists, the distance filter
    returns, and writes to no object that existed before the call: the four
    input lists, the arrays, names and poses they refer to, and every other
    object are afterwards what they were. The three lists it returns are
    new objects, distinct from each other; each holds the items of its
    input (the same references, no copies) at the retained indices, in
    increasing order; read as typed lists they are the outputs of
    [split_by_distance], which on inputs as long as the pose list are the
    entries at exactly the retained indices. The pose list still reads as
    before and is none of the results. The filter step of the script, with
    either policy, likewise leaves every old object as it was, keeps the
    binding of [vecs], and binds the three variables to new lists or leaves
    them alone. *)
Theorem filter_writes_no_old_object (h : store) (objpts imgpts names vecs : nat)
  (lo : list ObjPts) (li : list ImgPts) (ln : list string) (vs : list pose)
  (min_dist : float) :
  read_list h as_points3D objpts = Some lo ->
  read_list h as_points2D imgpts = Some li ->
  read_list h as_str names = Some ln ->
  read_list h as_pose vecs = Some vs ->
  let R := retained from_rotvec as_matrix vs min_dist in
  exists h' nobj nimg nnames io ii inn,
    split_by_distance_h h objpts imgpts names vecs min_dist
    = Done (h', (nobj, nimg, nnames))
    /\ (forall a, a < length h -> deref h' a = deref h a)
    /\ (length h <= nobj /\ length h <= nimg /\ length h <= nnames
        /\ nobj <> nimg /\ nimg <> nnames /\ nobj <> nnames)
    /\ (list_items h objpts = Done io /\ list_items h imgpts = Done ii
        /\ list_items h names = Done inn)
    /\ (list_items h' nobj = Done (Py.comprehension 0 io R)
        /\ list_items h' nimg = Done (Py.comprehension 0 ii R)
        /\ list_items h' nnames = Done (Py.comprehension 0 inn R))
    /\ (map Some (Py.comprehension 0 io R)
        = map (nth_error io) (Py.kept (length io) R)
        /\ map Some (Py.comprehension 0 ii R)
           = map (nth_error ii) (Py.kept (length ii) R)
        /\ map Some (Py.comprehension 0 inn R)
           = map (nth_error inn) (Py.kept (length inn) R))
    /\ (exists out_o out_i out_n,
           split_by_distance from_rotvec as_matrix lo li ln vs min_dist
           = Ok (out_o, out_i, out_n)
           /\ read_list h' as_points3D nobj = Some out_o
           /\ read_list h' as_points2D nimg = Some out_i
           /\ read_list h' as_str nnames = Some out_n
           /\ (length lo = length vs ->
               map Some out_o = map (nth_error lo) R)
           /\ (length li = length vs ->
               map Some out_i = map (nth_error li) R)
           /\ (length ln = length vs ->
               map Some out_n = map (nth_error ln) R))
    /\ StronglySorted lt R
    /\ (read_list h' as_points3D objpts = Some lo
        /\ read_list h' as_points2D imgpts = Some li
        /\ read_list h' as_str names = Some ln
        /\ read_list h' as_pose vecs = Some vs)
    /\ (vecs <> nobj /\ vecs <> nimg /\ vecs <> nnames)
    /\ forall args h2 b2,
        filter_lists_h args h (mkBindings objpts imgpts names vecs)
        = Done (h2, b2) ->
        (forall a, a < length h -> deref h2 a = deref h a)
        /\ b_vecs b2 = vecs
        /\ (b2 = mkBindings objpts imgpts names vecs
            \/ (length h <= b_objpoints b2 /\ length h <= b_imgpoints b2
                /\ length h <= b_ret_names b2)).
Proof.
  intros Ho Hi Hn Hv R.
  assert (Hit : forall (A : Type) (proj : object -> option A) l (xs : list A),
             read_list h proj l = Some xs ->
             exists items, list_items h l = Done items
                           /\ read_items h proj items = Some xs).
  { intros A proj l xs H. unfold read_list in H.
    destruct (list_items h l) as [items | |]; try discriminate.
    now exists items. }
  destruct (Hit _ _ _ _ Ho) as [io [Eo Ro]].
  destruct (Hit _ _ _ _ Hi) as [ii [Ei Ri]].
  destruct (Hit _ _ _ _ Hn) as [inn [En Rn]].
  pose proof (split_by_distance_h_run h objpts imgpts names vecs io ii inn
                vs min_dist Eo Ei En Hv) as Run.
  fold R in Run.
  set (h' := h ++ [OList (map Int R); OList (Py.comprehension 0 io R);
                   OList (Py.comprehension 0 ii R);
                   OList (Py.comprehension 0 inn R)]) in *.
  pose proof (list_items_bound _ _ _ Eo) as Bo.
  pose proof (list_items_bound _ _ _ Ei) as Bi.
  pose proof (list_items_bound _ _ _ En) as Bn.
  assert (Bv : vecs < length h).
  { destruct (Hit _ _ _ _ Hv) as [iv [Ev _]].
    exact (list_items_bound _ _ _ Ev). }
  assert (Hnew1 : list_items h' (length h + 1)
                  = Done (Py.comprehension 0 io R)).
  { subst h'.
    change (h ++ [OList (map Int R); OList (Py.comprehension 0 io R);
                  OList (Py.comprehension 0 ii R);
                  OList (Py.comprehension 0 inn R)])
      with (h ++ [OList (map Int R)]
              ++ OList (Py.comprehension 0 io R)
                 :: [OList (Py.comprehension 0 ii R);
                     OList (Py.comprehension 0 inn R)]).
    rewrite app_assoc.
    replace (length h + 1) with (length (h ++ [OList (map Int R)]))
      by (rewrite length_app; reflexivity).
    apply list_items_new. }
  assert (Hnew2 : list_items h' (length h + 2)
                  = Done (Py.comprehension 0 ii R)).
  { subst h'.
    change (h ++ [OList (map Int R); OList (Py.comprehension 0 io R);
                  OList (Py.comprehension 0 ii R);
                  OList (Py.comprehension 0 inn R)])
      with (h ++ [OList (map Int R); OList (Py.comprehension 0 io R)]
              ++ OList (Py.comprehension 0 ii R)
                 :: [OList (Py.comprehension 0 inn R)]).
    rewrite app_assoc.
    replace (length h + 2)
      with (length (h ++ [OList (map Int R);
                          OList (Py.comprehension 0 io R)]))
      by (rewrite length_app; reflexivity).
    apply list_items_new. }
  assert (Hnew3 : list_items h' (length h + 3)
                  = Done (Py.comprehension 0 inn R)).
  { subst h'.
    change (h ++ [OList (map Int R); OList (Py.comprehension 0 io R);
                  OList (Py.comprehension 0 ii R);
                  OList (Py.comprehension 0 inn R)])
      with (h ++ [OList (map Int R); OList (Py.comprehension 0 io R);
                  OList (Py.comprehension 0 ii R)]
              ++ OList (Py.comprehension 0 inn R) :: []).
    rewrite app_assoc.
    replace (length h + 3)
      with (length (h ++ [OList (map Int R);
                          OList (Py.comprehension 0 io R);
                          OList (Py.comprehension 0 ii R)]))
      by (rewrite length_app; reflexivity).
    apply list_items_new. }
  assert (Hread : forall (A : Type) (proj : object -> option A) a items
                         (xs : list A),
             list_items h' a = Done (Py.comprehension 0 items R) ->
             read_items h proj items = Some xs ->
             read_list h' proj a = Some (Py.comprehension 0 xs R)).
  { intros A proj a items xs Ha Hx. unfold read_list. rewrite Ha.
    subst h'. apply read_items_old.
    now apply read_items_comprehension. }
  assert (Hkeep : forall (A : Type) (proj : object -> option A) l
                         (xs : list A),
             read_list h proj l = Some xs ->
             read_list h' proj l = Some xs).
  { intros A proj l xs H. destruct (Hit _ _ _ _ H) as [items [El Rl]].
    unfold read_list. subst h'.
    rewrite (list_items_old _ _ _ _ El). now apply read_items_old. }
  assert (Hexact : forall (A : Type) (xs : list A),
             length xs = length vs ->
             map Some (Py.comprehension 0 xs R) = map (nth_error xs) R).
  { intros A xs Hl. rewrite comprehension_kept, Hl. subst R.
    now rewrite kept_retained. }
  exists h', (length h + 1), (length h + 2), (length h + 3), io, ii, inn.
  split; [exact Run |].
  split; [intros a Ha; subst h'; now apply deref_old |].
  split; [repeat split; lia |].
  split; [repeat split; assumption |].
  split; [repeat split; assumption |].
  split; [repeat split; apply comprehension_kept |].
  split.
  { exists (Py.comprehension 0 lo R), (Py.comprehension 0 li R),
           (Py.comprehension 0 ln R).
    split; [apply split_by_distance_retained |].
    split; [now apply (Hread _ _ _ io) |].
    split; [now apply (Hread _ _ _ ii) |].
    split; [now apply (Hread _ _ _ inn) |].
    repeat split; apply Hexact. }
  split; [apply retained_sorted |].
  split; [repeat split; now apply Hkeep |].
  split; [repeat split; lia |].
  intros args h2 b2. unfold filter_lists_h. cbn [b_objpoints b_imgpoints
                                                 b_ret_names b_vecs].
  destruct (filterdist args).
  - rewrite (split_by_distance_h_run h objpts imgpts names vecs io ii inn
               vs (mindist args) Eo Ei En Hv).
    cbn [and_next]. intros E. injection E as <- <-.
    cbn [b_objpoints b_imgpoints b_ret_names b_vecs].
    split; [intros a Ha; now apply deref_old |].
    split; [reflexivity |]. right. repeat split; lia.
  - destruct (filtertime args).
    + destruct (slice_h h objpts (residue args) (reduction args))
        as [r1 | e | f] eqn:E1; try discriminate.
      destruct (slice_h_run _ _ _ _ _ _ Eo E1) as [o1 ->].
      cbn [and_next fst snd].
      destruct (slice_h (h ++ [OList o1]) imgpts (residue args)
                        (reduction args)) as [r2 | e | f] eqn:E2;
        try discriminate.
      destruct (slice_h_run _ _ _ _ _ _
                  (list_items_old _ [OList o1] _ _ Ei) E2) as [o2 ->].
      cbn [and_next fst snd].
      destruct (slice_h ((h ++ [OList o1]) ++ [OList o2]) names
                        (residue args) (reduction args))
        as [r3 | e | f] eqn:E3; try discriminate.
      destruct (slice_h_run _ _ _ _ _ _
                  (list_items_old _ [OList o2] _ _
                     (list_items_old _ [OList o1] _ _ En)) E3)
        as [o3 ->].
      cbn [and_next fst snd]. intros E. injection E as <- <-.
      cbn [b_objpoints b_imgpoints b_ret_names b_vecs].
      split.
      * intros a Ha. rewrite <- !app_assoc. now apply deref_old.
      * split; [reflexivity |]. right.
        rewrite !length_app. cbn [length]. repeat split; lia.
    + intros E. injection E as <- <-.
      split; [reflexivity |]. split; [reflexivity |]. now left.
Qed.

End Store.

Arguments Done {A} a.
Arguments Raised {A} e.
Arguments Fault {A} f.
Arguments OList {ObjPts ImgPts} items.
Arguments OPoints3D {ObjPts ImgPts} a.
Arguments OPoints2D {ObjPts ImgPts} a.
Arguments OStr {ObjPts ImgPts} s.
Arguments OPose {ObjPts ImgPts} v.
Arguments deref {ObjPts ImgPts} h a.
Arguments list_items {ObjPts ImgPts} h l.
Arguments split_by_distance_h {Rotation} from_rotvec as_matrix
  {ObjPts ImgPts} h objpts imgpts names vecs min_dist.
Arguments filter_lists_h {Rotation} from_rotvec as_matrix {ObjPts ImgPts}
  args h b.
Arguments read_list {ObjPts ImgPts A} h proj l.
Arguments as_points3D {ObjPts ImgPts} o.
Arguments as_points2D {ObjPts ImgPts} o.
Arguments as_str {ObjPts ImgPts} o.
Arguments as_pose {ObjPts ImgPts} o.

(** A store with the four lists of three frames at addresses 0 to 3 and
    the objects they refer to at addresses 4 to 15. *)
Definition three_store : store nat nat :=
  [OList [Ref 4; Ref 5; Ref 6];
   OList [Ref 7; Ref 8; Ref 9];
   OList [Ref 10; Ref 11; Ref 12];
   OList [Ref 13; Ref 14; Ref 15];
   OPoints3D 10; OPoints3D 11; OPoints3D 12;
   OPoints2D 20; OPoints2D 21; OPoints2D 22;
   OStr "a"; OStr "b"; OStr "c";
   OPose (along_x 0%float); OPose (along_x 0x1.999999999999ap-5%float);
   OPose (along_x 1%float)].

(** The three frames with [min_dist = 0.5]: the store grows by four lists,
    the sixteen old objects stay, and the results at 17, 18 and 19 hold the
    references of frames 0 and 2. *)
Lemma filter_writes_no_old_object_witness :
  exists h',
    split_by_distance_h from_rotvec_zero as_matrix_id three_store 0 1 2 3
      0x1p-1
    = Done (h', (17, 18, 19))
    /\ (forall a, a < 16 -> deref h' a = deref three_store a)
    /\ list_items h' 17 = Done [Ref 4; Ref 6]
    /\ list_items h' 18 = Done [Ref 7; Ref 9]
    /\ list_items h' 19 = Done [Ref 10; Ref 12]
    /\ read_list h' as_pose 3 = Some three_frames.
Proof.
  destruct (filter_writes_no_old_object mat3 from_rotvec_zero as_matrix_id
              nat nat three_store 0 1 2 3
              [10; 11; 12] [20; 21; 22] ["a"; "b"; "c"]%string three_frames
              0x1p-1 eq_refl eq_refl eq_refl eq_refl)
    as (h' & no & ni & nn & io & ii & inn & Run & Frame & _ & Items & New
        & _ & _ & _ & Old & _).
  exists h'.
  assert (E := Run). vm_compute in E. injection E as Eh -> -> ->.
  destruct Items as (Eo & Ei & En).
  vm_compute in Eo, Ei, En.
  injection Eo as <-. injection Ei as <-. injection En as <-.
  destruct New as (N1 & N2 & N3). destruct Old as (_ & _ & _ & Ov).
  repeat split; assumption.
Defined.
